(** * MLopsLab preprocessing library: a shallow embedding and its properties

    The development follows [src/preprocessing.py].  Python values are
    modelled as they are at run time:

    - an [int] is an unbounded integer ([Z]);
    - a [float] is an IEEE-754 binary64 datum ([spec_float] with
      precision 53 and maximal exponent 1024), including the signed
      zeros, the infinities and NaN;
    - a [str] is a [string]; each character stands for the Unicode code
      point of the same number (the Latin-1 block, U+0000 .. U+00FF);
    - a raised exception is an explicit outcome ([Raise]);
    - the process-wide random generator used by [lst_shuffle] is threaded
      explicitly as a state. *)

From Stdlib Require Import ZArith QArith Qabs Lia List String Ascii.
From Stdlib Require Import Floats.SpecFloat.
From stdpp Require Import base list gmap strings sorting.

Local Open Scope Z_scope.

(** * Outcomes of a call: a value, or a raised exception *)

Inductive exn : Type :=
| OverflowError      (* int too large for a float, or a float power out of range *)
| ZeroDivisionError
| ValueError
| TypeError
| IndexError
| ComplexResult.     (* a negative float raised to 0.5: Python answers with a
                        complex number, which lies outside the numbers modelled *)

Inductive outcome (A : Type) : Type :=
| Ok (a : A)
| Raise (e : exn).
Arguments Ok {A} a.
Arguments Raise {A} e.

Global Instance outcome_ret : MRet outcome := @Ok.
Global Instance outcome_bind : MBind outcome :=
  λ A B f m, match m with Ok a => f a | Raise e => Raise e end.
Global Instance outcome_fmap : FMap outcome :=
  λ A B f m, match m with Ok a => Ok (f a) | Raise e => Raise e end.

(** A list comprehension whose element expression may raise: elements are
    evaluated left to right and the first exception aborts the whole. *)
Fixpoint comprehension {A B} (f : A → outcome B) (l : list A) : outcome (list B) :=
  match l with
  | [] => Ok []
  | x :: l' => y ← f x; ys ← comprehension f l'; Ok (y :: ys)
  end.

(** * Python numbers: [int] and [float] *)

Module Num.

Definition prec : Z := 53.
Definition emax : Z := 1024.

Inductive number : Type :=
| PInt (z : Z)
| PFloat (f : spec_float).

(** The exact mathematical value of a number, on the extended rational
    line; NaN has none.  Python compares ints and floats by exact value
    (no rounding of the int), which is what [exact] gives. *)
Inductive xvalue : Type := NegInf | Fin (q : Q) | PosInf.

Definition float_value (f : spec_float) : option xvalue :=
  match f with
  | S754_nan => None
  | S754_zero _ => Some (Fin 0%Q)
  | S754_infinity s => Some (if s then NegInf else PosInf)
  | S754_finite s m e =>
      Some (Fin (inject_Z (cond_Zopp s (Zpos m)) * Qpower 2 e)%Q)
  end.

Definition exact (x : number) : option xvalue :=
  match x with
  | PInt z => Some (Fin (inject_Z z))
  | PFloat f => float_value f
  end.

Definition xcompare (a b : xvalue) : comparison :=
  match a, b with
  | NegInf, NegInf => Eq
  | NegInf, _ => Lt
  | _, NegInf => Gt
  | PosInf, PosInf => Eq
  | PosInf, _ => Gt
  | _, PosInf => Lt
  | Fin p, Fin q => (p ?= q)%Q
  end.

(** [x < y], [x == y]: false as soon as one side is NaN. *)
Definition py_lt (x y : number) : bool :=
  match exact x, exact y with
  | Some a, Some b => match xcompare a b with Lt => true | _ => false end
  | _, _ => false
  end.

Definition py_eq (x y : number) : bool :=
  match exact x, exact y with
  | Some a, Some b => match xcompare a b with Eq => true | _ => false end
  | _, _ => false
  end.

(** [x <= y] *)
Definition py_le (x y : number) : bool :=
  match exact x, exact y with
  | Some a, Some b => match xcompare a b with Gt => false | _ => true end
  | _, _ => false
  end.

Definition is_nan (x : number) : bool :=
  match x with PFloat S754_nan => true | _ => false end.

(** [float(z)]: round to nearest even; an int beyond the double range
    raises OverflowError. *)
Definition int_to_float (z : Z) : outcome spec_float :=
  match binary_normalize prec emax z 0 false with
  | S754_infinity _ => Raise OverflowError
  | f => Ok f
  end.

Definition to_float (x : number) : outcome spec_float :=
  match x with
  | PInt z => int_to_float z
  | PFloat f => Ok f
  end.

Definition float_is_zero (f : spec_float) : bool :=
  match f with S754_zero _ => true | _ => false end.

Definition float_is_finite (f : spec_float) : bool :=
  match f with S754_zero _ | S754_finite _ _ _ => true | _ => false end.

(** [a / b] on two ints: the correctly rounded quotient.  The quotient is
    first computed to at least 55 significant bits with a sticky bit, which
    rounds like the exact quotient. *)
Definition int_truediv (a b : Z) : outcome spec_float :=
  if b =? 0 then Raise ZeroDivisionError
  else
    let neg := xorb (a <? 0) (b <? 0) in
    let a' := Z.abs a in
    let b' := Z.abs b in
    if a' =? 0 then Ok (S754_zero neg)
    else
      let k := Z.max 0 (56 + Z.log2 b' - Z.log2 a') in
      let q := (a' * 2 ^ k) / b' in
      let sticky := if (a' * 2 ^ k) mod b' =? 0 then 0 else 1 in
      let m := 2 * q + sticky in
      match binary_normalize prec emax (cond_Zopp neg m) (- k - 1) neg with
      | S754_infinity _ => Raise OverflowError
      | f => Ok f
      end.

Definition float_truediv (x y : spec_float) : outcome spec_float :=
  if float_is_zero y then Raise ZeroDivisionError
  else Ok (SFdiv prec emax x y).

Definition py_add (x y : number) : outcome number :=
  match x, y with
  | PInt a, PInt b => Ok (PInt (a + b))
  | _, _ => a ← to_float x; b ← to_float y; Ok (PFloat (SFadd prec emax a b))
  end.

Definition py_sub (x y : number) : outcome number :=
  match x, y with
  | PInt a, PInt b => Ok (PInt (a - b))
  | _, _ => a ← to_float x; b ← to_float y; Ok (PFloat (SFsub prec emax a b))
  end.

Definition py_truediv (x y : number) : outcome number :=
  match x, y with
  | PInt a, PInt b => PFloat <$> int_truediv a b
  | _, _ => a ← to_float x; b ← to_float y; PFloat <$> float_truediv a b
  end.

(** The two exponents the library uses: [** 2] and [** 0.5]. *)
Inductive exponent : Type := Two | Half.

(** [f ** 2.0] and [f ** 0.5] on a float: the IEEE product and square
    root, that is, the correctly rounded power; a finite base whose power
    overflows raises OverflowError.  The C library's [pow], which Python
    calls, is specified only up to the last bit of this value, so the
    general properties proved of [z_score_standardize] are those that do
    not depend on that bit: the structure of the result, its exceptions,
    the signs and the zeros.  The concrete runs agree with CPython. *)
Definition float_pow (f : spec_float) (e : exponent) : outcome spec_float :=
  match e with
  | Two =>
      let r := SFmul prec emax f f in
      match r with
      | S754_infinity _ => if float_is_finite f then Raise OverflowError else Ok r
      | _ => Ok r
      end
  | Half =>
      match f with
      | S754_nan => Ok S754_nan
      | S754_infinity _ => Ok (S754_infinity false)
      | S754_zero _ => Ok (S754_zero false)
      | S754_finite true _ _ => Raise ComplexResult
      | S754_finite false _ _ => Ok (SFsqrt prec emax f)
      end
  end.

Definition py_pow (x : number) (e : exponent) : outcome number :=
  match x, e with
  | PInt a, Two => Ok (PInt (a * a))
  | _, _ => f ← to_float x; PFloat <$> float_pow f e
  end.

End Num.

Export Num.

(** * The arithmetic the numeric helpers rely on

    The numeric helpers are duck-typed: they use [<], [==], [+], [-], [/],
    [**], the literals [0] and [0.0] and [len].  [PyNumber] collects these;
    the instance is Python's own numbers ([number]: exact ints and
    binary64 floats). *)

Class PyNumber (A : Type) : Type := {
  n_int : Z → A;                       (* an int object: a literal, or [len] *)
  n_zero_float : A;                    (* the literal [0.0] *)
  n_lt : A → A → bool;                 (* [x < y]; [x > y] is [n_lt y x] *)
  n_eq : A → A → bool;                 (* [x == y] *)
  n_add : A → A → outcome A;
  n_sub : A → A → outcome A;
  n_truediv : A → A → outcome A;
  n_pow : A → exponent → outcome A
}.

Global Instance number_PyNumber : PyNumber number := {|
  n_int := PInt;
  n_zero_float := PFloat (S754_zero false);
  n_lt := py_lt;
  n_eq := py_eq;
  n_add := py_add;
  n_sub := py_sub;
  n_truediv := py_truediv;
  n_pow := py_pow
|}.

Section Numeric.
Context {A : Type} `{PyNumber A}.

(** The builtins [min(a, b)] and [max(a, b)]: the first argument is kept
    unless the second is strictly smaller (resp. strictly greater). *)
Definition min2 (a b : A) : A := if n_lt b a then b else a.
Definition max2 (a b : A) : A := if n_lt a b then b else a.

(** [min(data)] and [max(data)]: one left-to-right pass; ValueError on
    an empty argument. *)
Definition py_min (data : list A) : outcome A :=
  match data with
  | [] => Raise ValueError
  | x :: rest => Ok (fold_left min2 rest x)
  end.

Definition py_max (data : list A) : outcome A :=
  match data with
  | [] => Raise ValueError
  | x :: rest => Ok (fold_left max2 rest x)
  end.

(** [sum(f(item) for item in data)], from the accumulator [acc]: the
    generator is consumed lazily, one element per addition. *)
Fixpoint sum_from (f : A → outcome A) (acc : A) (data : list A) : outcome A :=
  match data with
  | [] => Ok acc
  | item :: rest => v ← f item; acc' ← n_add acc v; sum_from f acc' rest
  end.

(** [sum(data)] starts from the int [0]. *)
Definition py_sum (data : list A) : outcome A := sum_from Ok (n_int 0) data.

Definition py_len (data : list A) : A := n_int (Z.of_nat (length data)).

(** [[0.0 for _ in data]] *)
Definition zeros (data : list A) : list A := map (λ _, n_zero_float) data.

(** [minmax_normalize], lines 94-126.  The parameters [min_val] and
    [max_val] are rebound on lines 120-121 before any use. *)
Definition minmax_normalize (data : list A) (min_val max_val : A) : outcome (list A) :=
  match data with
  | [] => Ok data
  | _ =>
      min_val ← py_min data;
      max_val ← py_max data;
      if n_eq min_val max_val then Ok (zeros data)
      else comprehension
             (λ item, a ← n_sub item min_val; b ← n_sub max_val min_val; n_truediv a b)
             data
  end.

(** [z_score_standardize], lines 129-158. *)
Definition z_score_standardize (data : list A) : outcome (list A) :=
  match data with
  | [] => Ok data
  | _ =>
      total ← py_sum data;
      mean_val ← n_truediv total (py_len data);
      squares ← sum_from (λ item, d ← n_sub item mean_val; n_pow d Two) (n_int 0) data;
      variance ← n_truediv squares (py_len data);
      std_dev ← n_pow variance Half;
      if n_eq std_dev (n_int 0) then Ok (zeros data)
      else comprehension (λ item, d ← n_sub item mean_val; n_truediv d std_dev) data
  end.

(** [clip_values], lines 161-185. *)
Definition clip (min_threshold max_threshold item : A) : A :=
  max2 (min2 item max_threshold) min_threshold.

Definition clip_values (data : list A) (min_threshold max_threshold : A) : list A :=
  map (clip min_threshold max_threshold) data.

(** Population mean and population standard deviation of a list, as the
    test suite computes them ([test_z_score_standardize]). *)
Definition population_mean (data : list A) : outcome A :=
  total ← py_sum data; n_truediv total (py_len data).

Definition population_std (data : list A) : outcome A :=
  mean ← population_mean data;
  squares ← sum_from (λ x, d ← n_sub x mean; n_pow d Two) (n_int 0) data;
  variance ← n_truediv squares (py_len data);
  n_pow variance Half.

(** A list is standardized when its population mean is 0 and its
    population standard deviation is 1. *)
Definition standardized (out : list A) : Prop :=
  (∃ m, population_mean out = Ok m ∧ n_eq m (n_int 0) = true) ∧
  (∃ s, population_std out = Ok s ∧ n_eq s (n_int 1) = true).

Definition non_constant (data : list A) : Prop :=
  ∃ x y, x ∈ data ∧ y ∈ data ∧ n_eq x y = false.
End Numeric.

(** * Heterogeneous list elements and the cleaning helpers *)

(** What an input list may hold: [None], a bool, a number, a string or a
    nested list. *)
#[warnings="-register-all"]
Inductive value : Type :=
| VNone
| VBool (b : bool)
| VNum (n : number)
| VStr (s : string)
| VList (l : list value).

(** [item is None or item == ""] *)
Definition is_none_or_empty (item : value) : bool :=
  match item with
  | VNone => true
  | VStr s => if decide (s = "") then true else false
  | _ => false
  end.

(** [isinstance(item, float) or isinstance(item, int)]; [bool] is a
    subclass of [int]. *)
Definition is_float_or_int (item : value) : bool :=
  match item with
  | VBool _ | VNum _ => true
  | _ => false
  end.

(** [math.isnan(item)]: the argument is first converted to a C double, so
    an int beyond the double range raises OverflowError. *)
Definition math_isnan (item : value) : outcome bool :=
  match item with
  | VBool _ => Ok false
  | VNum n => f ← to_float n; Ok (match f with S754_nan => true | _ => false end)
  | _ => Raise TypeError
  end.

(** [(isinstance(item, float) or isinstance(item, int)) and math.isnan(item)] *)
Definition is_numeric_nan (item : value) : outcome bool :=
  if is_float_or_int item then math_isnan item else Ok false.

(** [clean_values], lines 10-37. *)
Fixpoint clean_values (data : list value) : outcome (list value) :=
  match data with
  | [] => Ok []
  | item :: rest =>
      if is_none_or_empty item then clean_values rest
      else
        nan ← is_numeric_nan item;
        if (nan : bool) then clean_values rest
        else cleaned ← clean_values rest; Ok (item :: cleaned)
  end.

(** [fill_values], lines 40-70. *)
Fixpoint fill_values (data : list value) (fill_value : value) : outcome (list value) :=
  match data with
  | [] => Ok []
  | item :: rest =>
      if is_none_or_empty item then
        filled ← fill_values rest fill_value; Ok (fill_value :: filled)
      else
        nan ← is_numeric_nan item;
        filled ← fill_values rest fill_value;
        Ok ((if (nan : bool) then fill_value else item) :: filled)
  end.

(** The missing markers, in the words of the specification: [None], the
    empty string, or a numeric NaN. *)
Definition missing (item : value) : bool :=
  match item with
  | VNone => true
  | VStr s => if decide (s = "") then true else false
  | VNum (PFloat S754_nan) => true
  | _ => false
  end.

(** An element on which [math.isnan] raises: an int too large for a float. *)
Definition oversized (item : value) : bool :=
  match item with
  | VNum (PInt z) => match int_to_float z with Raise _ => true | Ok _ => false end
  | _ => false
  end.

(** * Strings *)

Module Str.

Definition code (c : ascii) : N := N_of_ascii c.

(** Unicode category Nd within Latin-1: the ASCII digits. *)
Definition is_decimal (c : ascii) : bool := ((48 <=? code c) && (code c <=? 57))%N.

(** Numeric_Type Digit or Decimal within Latin-1: the ASCII digits and the
    superscripts U+00B2, U+00B3, U+00B9. *)
Definition char_isdigit (c : ascii) : bool :=
  is_decimal c || (code c =? 178)%N || (code c =? 179)%N || (code c =? 185)%N.

(** [str.isspace] on one character, within Latin-1: U+0009-000D,
    U+001C-0020, U+0085, U+00A0. *)
Definition char_isspace (c : ascii) : bool :=
  ((9 <=? code c) && (code c <=? 13) || (28 <=? code c) && (code c <=? 32)
   || (code c =? 133) || (code c =? 160))%N.

(** [str.lower] on one character, within Latin-1: A-Z and U+00C0-00DE
    except the multiplication sign U+00D7 move up by 32. *)
Definition char_lower (c : ascii) : ascii :=
  if ((65 <=? code c) && (code c <=? 90)
      || (192 <=? code c) && (code c <=? 222) && negb (code c =? 215))%N
  then ascii_of_N (code c + 32) else c.

Fixpoint forall_chars (p : ascii → bool) (s : string) : bool :=
  match s with
  | EmptyString => true
  | String c rest => p c && forall_chars p rest
  end.

Fixpoint map_chars (f : ascii → ascii) (s : string) : string :=
  match s with
  | EmptyString => EmptyString
  | String c rest => String (f c) (map_chars f rest)
  end.

(** [s.isdigit()]: at least one character, and all of them digits. *)
Definition isdigit (s : string) : bool :=
  match s with
  | EmptyString => false
  | _ => forall_chars char_isdigit s
  end.

(** [s.lower()] *)
Definition lower (s : string) : string := map_chars char_lower s.

Definition digit_value (c : ascii) : Z := Z.of_N (code c) - 48.

(** The digits of an int literal: decimal digits, with single underscores
    allowed between two digits. *)
Fixpoint digits_value (after_digit : bool) (acc : Z) (s : string) : option Z :=
  match s with
  | EmptyString => if after_digit then Some acc else None
  | String c rest =>
      if is_decimal c then digits_value true (10 * acc + digit_value c) rest
      else if after_digit && (code c =? 95)%N then digits_value false acc rest
      else None
  end.

Fixpoint lstrip (s : string) : string :=
  match s with
  | String c rest => if char_isspace c then lstrip rest else s
  | EmptyString => s
  end.

Fixpoint rstrip (s : string) : string :=
  match s with
  | EmptyString => EmptyString
  | String c rest =>
      match rstrip rest with
      | EmptyString => if char_isspace c then EmptyString else String c EmptyString
      | rest' => String c rest'
      end
  end.

(** The whitespace [int] drops around a literal, within Latin-1:
    U+0009-000D, U+0020, U+0085, U+00A0.  The separators U+001C-001F are
    whitespace for [str.isspace] and [str.split], but not for [int]. *)
Definition int_isspace (c : ascii) : bool :=
  ((9 <=? code c) && (code c <=? 13) || (code c =? 32)
   || (code c =? 133) || (code c =? 160))%N.

Fixpoint int_lstrip (s : string) : string :=
  match s with
  | String c rest => if int_isspace c then int_lstrip rest else s
  | EmptyString => s
  end.

Fixpoint int_rstrip (s : string) : string :=
  match s with
  | EmptyString => EmptyString
  | String c rest =>
      match int_rstrip rest with
      | EmptyString => if int_isspace c then EmptyString else String c EmptyString
      | rest' => String c rest'
      end
  end.

(** The interpreter's cap on the number of digits of a decimal literal
    ([sys.int_info.default_max_str_digits]); the library does not change it. *)
Definition int_max_str_digits : Z := 4300.

(** The number of decimal digits in a literal; underscores do not count,
    leading zeros do. *)
Fixpoint count_digits (s : string) : Z :=
  match s with
  | EmptyString => 0
  | String c rest => (if is_decimal c then 1 else 0) + count_digits rest
  end.

(** [int(s)] in base 10: surrounding whitespace is dropped, one sign is
    allowed, and what remains must be an int literal of at most
    [int_max_str_digits] digits; otherwise ValueError. *)
Definition py_int (s : string) : outcome Z :=
  let body := int_rstrip (int_lstrip s) in
  let signed :=
    match body with
    | String c rest =>
        if (code c =? 45)%N then (true, rest)
        else if (code c =? 43)%N then (false, rest)
        else (false, body)
    | EmptyString => (false, body)
    end in
  match digits_value false 0 signed.2 with
  | Some n =>
      if int_max_str_digits <? count_digits signed.2 then Raise ValueError
      else Ok (if signed.1 then - n else n)
  | None => Raise ValueError
  end.

(** [text.split()]: the maximal runs of non-whitespace characters.
    [word] is the run read so far. *)
Fixpoint split_from (word : string) (text : string) : list string :=
  match text with
  | EmptyString => match word with EmptyString => [] | _ => [word] end
  | String c rest =>
      if char_isspace c then
        match word with
        | EmptyString => split_from EmptyString rest
        | _ => word :: split_from EmptyString rest
        end
      else split_from (word +:+ String c EmptyString) rest
  end.

Definition split (text : string) : list string := split_from EmptyString text.

(** [sep.join(words)] *)
Fixpoint join (sep : string) (words : list string) : string :=
  match words with
  | [] => EmptyString
  | [w] => w
  | w :: rest => w +:+ sep +:+ join sep rest
  end.

End Str.

(** [lst_to_ints], lines 188-208: [[int(item) for item in data if item.isdigit()]]. *)
Fixpoint lst_to_ints (data : list string) : outcome (list Z) :=
  match data with
  | [] => Ok []
  | item :: rest =>
      if Str.isdigit item then
        n ← Str.py_int item; ns ← lst_to_ints rest; Ok (n :: ns)
      else lst_to_ints rest
  end.

(** [clean_stop_words], lines 283-307. *)
Definition clean_stop_words (text : string) (stopwords : gset string) : string :=
  let words := Str.split text in
  Str.join " " (filter (λ word, Str.lower word ∉ stopwords) words).

(** * Shuffling

    [random.shuffle] is the Fisher-Yates loop of the standard library:
    [for i in reversed(range(1, len(x))): j = randbelow(i + 1);
    x[i], x[j] = x[j], x[i]].  The generator itself is not part of the
    repository: its state type [G], its draw [randbelow] and its reseeding
    [seed_state] are parameters. *)

Section Shuffle.
Context {A G : Type}.
Variable randbelow : G → nat → nat * G.
Variable seed_state : Z → G.

(** [x[i], x[j] = x[j], x[i]]: both reads precede both writes; an index
    out of range raises IndexError. *)
Definition swap (x : list A) (i j : nat) : outcome (list A) :=
  match x !! j, x !! i with
  | Some xj, Some xi => Ok (<[j := xi]> (<[i := xj]> x))
  | _, _ => Raise IndexError
  end.

(** The loop, for the indices [i], [i - 1], ..., [1]. *)
Fixpoint shuffle_from (i : nat) (x : list A) (g : G) : outcome (list A * G) :=
  match i with
  | O => Ok (x, g)
  | S i' =>
      let '(j, g') := randbelow g (S i) in
      x' ← swap x i j;
      shuffle_from i' x' g'
  end.

Definition random_shuffle (x : list A) (g : G) : outcome (list A * G) :=
  shuffle_from (length x - 1) x g.

(** [lst_shuffle], lines 333-358.  The result pairs the shuffled copy
    with the generator state left behind. *)
Definition lst_shuffle (data : list A) (seed : option Z) (g : G) : outcome (list A * G) :=
  let g := match seed with Some s => seed_state s | None => g end in
  let shuffled_data := data in
  random_shuffle shuffled_data g.
End Shuffle.

(** [sorted(l)] for elements ordered by [R]. *)
Definition sorted {A} (R : relation A) `{∀ x y, Decision (R x y)} (l : list A) : list A :=
  merge_sort R l.

(** A linear congruential generator, used to run the shuffle on examples. *)
Definition lcg_randbelow (g : Z) (n : nat) : nat * Z :=
  (Z.to_nat (g mod Z.of_nat n), (g * 1103515245 + 12345) mod 2 ^ 31).

Definition lcg_seed (s : Z) : Z := s mod 2 ^ 31.

(** * Specifications *)

(** [x] is a number in the narrow sense: not NaN (the library itself
    treats NaN as a missing marker, see [missing]). *)
Definition proper (x : number) : Prop := is_nan x = false.

(** [lo <= x <= hi] *)
Definition within (lo hi x : number) : Prop :=
  py_le lo x = true ∧ py_le x hi = true.

(** [out] has the length of [data] and its [i]-th element is [f] of the
    [i]-th element of [data]. *)
Definition elementwise {A} (f : A → A) (data out : list A) : Prop :=
  length out = length data ∧ ∀ i x, data !! i = Some x → out !! i = Some (f x).

(** The clipping property without any assumption relating the thresholds. *)
Definition clip_claim (data : list number) (lo hi : number) : Prop :=
  elementwise (clip lo hi) data (clip_values data lo hi) ∧
  Forall (within lo hi) (clip_values data lo hi).

(** With inverted thresholds every element of the result is the lower
    threshold, whatever the list holds. *)
Definition inverted_claim (data : list number) (lo hi : number) : Prop :=
  py_lt hi lo = true → Forall (λ x, x = lo) (clip_values data lo hi).








(** What [fill_values] is meant to do to one element. *)
Definition fill_one (fill_value item : value) : value :=
  if missing item then fill_value else item.

(** [fill_values] returns a list of the same length, with the missing
    elements replaced and the others in place. *)
Definition fill_claim (data : list value) (fill_value : value) : Prop :=
  ∃ out, fill_values data fill_value = Ok out ∧
         elementwise (fill_one fill_value) data out.

(** [clean_values(fill_values(data, fill_value)) == fill_values(data, fill_value)] *)
Definition clean_fill_claim (data : list value) (fill_value : value) : Prop :=
  ∃ out, fill_values data fill_value = Ok out ∧ clean_values out = Ok out.

(** The int [10 ** 400], too large for a float. *)
Definition huge_int : value := VNum (PInt (10 ^ 400)).

(** A token composed entirely of decimal digits (and not empty), and the
    integer it denotes. *)
Definition all_decimal (s : string) : bool :=
  match s with
  | EmptyString => false
  | _ => Str.forall_chars Str.is_decimal s
  end.

Fixpoint decimal_from (acc : Z) (s : string) : Z :=
  match s with
  | EmptyString => acc
  | String c rest => decimal_from (10 * acc + Str.digit_value c) rest
  end.

Definition decimal (s : string) : Z := decimal_from 0 s.

(** A token with more characters than [int] accepts digits. *)
Definition too_long (s : string) : bool :=
  Str.int_max_str_digits <? Z.of_nat (String.length s).

(** [lst_to_ints] returns normally, with the decimal tokens converted and
    everything else dropped. *)
Definition to_ints_claim (data : list string) : Prop :=
  lst_to_ints data = Ok (decimal <$> filter (λ s, all_decimal s = true) data).

(** The one-character string U+00B2 (superscript two). *)
Definition superscript_two : string := String (ascii_of_N 178) EmptyString.

(** Splitting on whitespace, in the words of the specification.  A blank
    is a run of whitespace; a word is a non-empty run without whitespace;
    [splits_as text words] says that [text] is the words of [words], in
    order, each one delimited by blanks or by the ends of the text. *)
Definition blank (s : string) : Prop := Str.forall_chars Str.char_isspace s = true.

Definition word (s : string) : Prop :=
  s ≠ EmptyString ∧ Str.forall_chars (λ c, negb (Str.char_isspace c)) s = true.

Definition at_boundary (s : string) : Prop :=
  match s with
  | EmptyString => True
  | String c _ => Str.char_isspace c = true
  end.

Inductive splits_as : string → list string → Prop :=
| splits_blank ws : blank ws → splits_as ws []
| splits_word ws w rest words :
    blank ws → word w → at_boundary rest → splits_as rest words →
    splits_as (ws +:+ w +:+ rest) (w :: words).

(** Z-score standardisation in the words of the specification: from the
    population mean and the population standard deviation of the input. *)
Definition z_score_spec {A} `{PyNumber A} (data : list A) : outcome (list A) :=
  match data with
  | [] => Ok []
  | _ =>
      mean ← population_mean data;
      std ← population_std data;
      if n_eq std (n_int 0) then Ok (replicate (length data) n_zero_float)
      else comprehension (λ x, d ← n_sub x mean; n_truediv d std) data
  end.

(** The whole property: the result is the specified one and, on a
    non-constant input, it is standardized. *)
Definition z_score_claim {A} `{PyNumber A} (data : list A) : Prop :=
  z_score_standardize data = z_score_spec data ∧
  (non_constant data → ∃ out, z_score_standardize data = Ok out ∧ standardized out).

(** The float [1e-200], that is [0x1.87e92154ef7acp-665]. *)
Definition tiny : number := PFloat (S754_finite false 0x187e92154ef7ac (-717)).

(** A float that is not a negative finite number, so that its power
    [** 0.5] is a float; and what a running sum of squares can be: the
    int [0] it starts from, or such a float. *)
Definition not_negative (f : spec_float) : Prop :=
  match f with S754_finite true _ _ => False | _ => True end.

Definition sum_of_squares (x : number) : Prop :=
  match x with PInt z => z = 0 | PFloat f => not_negative f end.

(** The float [1e200], that is [0x1.4e718d7d7625ap+664]. *)
Definition big : number := PFloat (S754_finite false 0x14e718d7d7625a 612).

(** The exact value of a finite number, as a rational, and the exact
    population mean and variance of a list of rationals. *)
Definition rational (x : number) : option Q :=
  match exact x with Some (Fin q) => Some q | _ => None end.

Definition qsum (qs : list Q) : Q := fold_right Qplus 0%Q qs.

Definition qmean (qs : list Q) : Q :=
  (qsum qs / inject_Z (Z.of_nat (length qs)))%Q.

Definition qvariance (qs : list Q) : Q :=
  qmean ((λ q, (q - qmean qs) * (q - qmean qs))%Q <$> qs).

(** The elements of [out], read as exact rationals, have population mean
    0 and population standard deviation 1 to within [tol]; with [tol = 0],
    exactly. *)
Definition standardized_within (tol : Q) (out : list number) : Prop :=
  ∃ qs, mapM rational out = Some qs ∧
        (Qabs (qmean qs) <= tol)%Q ∧
        ((1 - tol) * (1 - tol) <= qvariance qs)%Q ∧
        (qvariance qs <= (1 + tol) * (1 + tol))%Q.

(** * The remaining helpers of the library *)

(** [remove_duplicates], lines 73-91: [list(set(data))].  The elements
    are taken from a type on which Python's [==] is plain equality (ints,
    or the strings the command line passes).  The order in which a set is
    iterated is left open by the language: it is the parameter
    [set_order]. *)
Section Duplicates.
Context `{Countable A}.
Variable set_order : gset A → list A.

Definition remove_duplicates (data : list A) : list A :=
  set_order (list_to_set data).
End Duplicates.

(** [math.log(x)]: NaN for NaN, a domain error (ValueError) for zero and
    below, and the logarithm otherwise.  The logarithm itself comes from
    the C library and is the parameter [ln]. *)
Section Log.
Variable ln : number → number.

Definition math_log (x : number) : outcome number :=
  if is_nan x then Ok (PFloat S754_nan)
  else if py_lt (PInt 0) x then Ok (ln x)
  else Raise ValueError.

(** [log_transform], lines 211-231:
    [[math.log(item) for item in data if item > 0]]. *)
Fixpoint log_transform (data : list number) : outcome (list number) :=
  match data with
  | [] => Ok []
  | item :: rest =>
      if py_lt (PInt 0) item then
        v ← math_log item; vs ← log_transform rest; Ok (v :: vs)
      else log_transform rest
  end.
End Log.

Module Re.
Import Str.

(** [\w] within Latin-1: the letters, the digits and the underscore. *)
Definition is_word (c : ascii) : bool :=
  ((48 <=? code c) && (code c <=? 57) || (65 <=? code c) && (code c <=? 90)
   || (code c =? 95) || (97 <=? code c) && (code c <=? 122)
   || (code c =? 170) || (178 <=? code c) && (code c <=? 179)
   || (code c =? 181) || (185 <=? code c) && (code c <=? 186)
   || (188 <=? code c) && (code c <=? 190)
   || (192 <=? code c) && (code c <=? 214)
   || (216 <=? code c) && (code c <=? 246) || (248 <=? code c))%N.

(** [[a-zA-Z0-9]] *)
Definition is_ascii_alnum (c : ascii) : bool :=
  ((48 <=? code c) && (code c <=? 57) || (65 <=? code c) && (code c <=? 90)
   || (97 <=? code c) && (code c <=? 122))%N.

Definition starts_with_word (s : string) : bool :=
  match s with
  | String c _ => is_word c
  | EmptyString => false
  end.

(** [\b] between a character ([prev] tells whether it is a word character;
    the start of the text is not) and the text [s] that follows. *)
Definition boundary (prev : bool) (s : string) : bool :=
  xorb prev (starts_with_word s).

(** [\w+\b] at the head of [s]: the repetition is greedy and gives
    characters back until a boundary follows.  The result is the match and
    the rest of the text. *)
Fixpoint word_plus (s : string) : option (string * string) :=
  match s with
  | EmptyString => None
  | String c rest =>
      if is_word c then
        match word_plus rest with
        | Some (w, rest') => Some (String c w, rest')
        | None =>
            if boundary true rest then Some (String c EmptyString, rest) else None
        end
      else None
  end.

(** [\b\w+\b] at the head of [s]. *)
Definition match_at (prev : bool) (s : string) : option (string * string) :=
  if boundary prev s then word_plus s else None.

(** [re.findall(r"\b\w+\b", s)]: the matches from left to right; after a
    match the scan resumes behind it, otherwise one character further.
    [fuel] bounds the number of steps. *)
Fixpoint findall_from (fuel : nat) (prev : bool) (s : string) : list string :=
  match fuel with
  | O => []
  | S fuel' =>
      match match_at prev s with
      | Some (w, rest) => w :: findall_from fuel' true rest
      | None =>
          match s with
          | EmptyString => []
          | String c rest => findall_from fuel' (is_word c) rest
          end
      end
  end.

Definition findall_words (s : string) : list string :=
  findall_from (S (String.length s)) false s.

Fixpoint filter_chars (p : ascii → bool) (s : string) : string :=
  match s with
  | EmptyString => EmptyString
  | String c rest => if p c then String c (filter_chars p rest) else filter_chars p rest
  end.

(** [re.sub(r"\s+", " ", s)]: every maximal run of whitespace becomes one
    space; [in_run] tells whether the run at hand has been replaced
    already. *)
Fixpoint collapse_from (in_run : bool) (s : string) : string :=
  match s with
  | EmptyString => EmptyString
  | String c rest =>
      if char_isspace c then
        if in_run then collapse_from true rest
        else String " " (collapse_from true rest)
      else String c (collapse_from false rest)
  end.

Definition collapse (s : string) : string := collapse_from false s.

(** [s.strip()] *)
Definition strip (s : string) : string := rstrip (lstrip s).

End Re.

(** [special_tokenization], lines 234-256. *)
Definition special_tokenization (text : string) : list string :=
  let tokens := Re.findall_words (Str.lower text) in
  tokens.

(** [clean_text], lines 259-280. *)
Definition clean_text (text : string) : string :=
  let text := Re.filter_chars (λ c, Re.is_ascii_alnum c || Str.char_isspace c) text in
  let text := Re.strip (Re.collapse text) in
  text.

(** [lst_flatten], lines 310-330:
    [[item for sublist in nested_list for item in sublist]]; each item is
    appended in turn. *)
Definition lst_flatten {A} (nested_list : list (list A)) : list A :=
  foldl (λ flattened sublist, foldl (λ flattened item, flattened ++ [item]) flattened sublist)
        [] nested_list.

(** The maximal runs of characters other than the separators [sep];
    [run] is the run read so far. *)
Fixpoint runs_from (sep : ascii → bool) (run : string) (text : string) : list string :=
  match text with
  | EmptyString => match run with EmptyString => [] | _ => [run] end
  | String c rest =>
      if sep c then
        match run with
        | EmptyString => runs_from sep EmptyString rest
        | _ => run :: runs_from sep EmptyString rest
        end
      else runs_from sep (run +:+ String c EmptyString) rest
  end.

Definition runs (sep : ascii → bool) (text : string) : list string :=
  runs_from sep EmptyString text.

(** A non-empty string without separators. *)
Definition solid (sep : ascii → bool) (s : string) : Prop :=
  s ≠ EmptyString ∧ Str.forall_chars (λ c, negb (sep c)) s = true.

(** [text] is the strings [pieces], in order, each one delimited by
    separators or by the ends of the text. *)
Inductive delimited (sep : ascii → bool) : string → list string → Prop :=
| delimited_end gap :
    Str.forall_chars sep gap = true → delimited sep gap []
| delimited_piece gap piece rest pieces :
    Str.forall_chars sep gap = true → solid sep piece →
    match rest with EmptyString => True | String c _ => sep c = true end →
    delimited sep rest pieces →
    delimited sep (gap +:+ piece +:+ rest) (piece :: pieces).

(** The separators of the tokenizer: everything that is not a word
    character. *)
Definition non_word (c : ascii) : bool := negb (Re.is_word c).

(** The characters [clean_text] keeps in its first pass: [[a-zA-Z0-9\s]]. *)
Definition kept (c : ascii) : bool := Re.is_ascii_alnum c || Str.char_isspace c.

(** * Properties *)

(** ** The order on numbers *)

Module NumFacts.

Lemma xcompare_refl a : xcompare a a = Eq.
Proof. destruct a; simpl; auto. apply Qeq_alt. reflexivity. Qed.

Lemma xcompare_antisym a b : xcompare b a = CompOpp (xcompare a b).
Proof. destruct a, b; simpl; auto. symmetry. apply Qcompare_antisym. Qed.

Lemma xcompare_le_lt_trans a b c :
  xcompare a b ≠ Gt → xcompare b c = Lt → xcompare a c = Lt.
Proof.
  destruct a, b, c; simpl; try congruence; auto.
  intros Hab Hbc. apply Qle_alt in Hab. apply Qlt_alt in Hbc.
  apply Qlt_alt. eapply Qle_lt_trans; eauto.
Qed.

Lemma xcompare_le_trans a b c :
  xcompare a b ≠ Gt → xcompare b c ≠ Gt → xcompare a c ≠ Gt.
Proof.
  destruct a, b, c; simpl; try congruence; auto.
  intros Hab Hbc. apply Qle_alt in Hab. apply Qle_alt in Hbc.
  apply Qle_alt. eapply Qle_trans; eauto.
Qed.

Lemma exact_not_nan x : is_nan x = false → ∃ a, exact x = Some a.
Proof. destruct x as [z|[]]; simpl; try discriminate; eauto. Qed.

Lemma py_lt_spec x y :
  py_lt x y = true ↔ ∃ a b, exact x = Some a ∧ exact y = Some b ∧ xcompare a b = Lt.
Proof.
  unfold py_lt. split.
  - destruct (exact x) as [a|], (exact y) as [b|]; try discriminate.
    destruct (xcompare a b) eqn:E; try discriminate. eauto.
  - intros (a & b & -> & -> & ->). reflexivity.
Qed.

Lemma py_le_spec x y :
  py_le x y = true ↔ ∃ a b, exact x = Some a ∧ exact y = Some b ∧ xcompare a b ≠ Gt.
Proof.
  unfold py_le. split.
  - destruct (exact x) as [a|], (exact y) as [b|]; try discriminate.
    destruct (xcompare a b) eqn:E; try discriminate; intros _;
      exists a, b; rewrite E; repeat split; congruence.
  - intros (a & b & -> & -> & Hc). destruct (xcompare a b); congruence.
Qed.

Lemma py_lt_irrefl x : py_lt x x = false.
Proof.
  unfold py_lt. destruct (exact x); auto. by rewrite xcompare_refl.
Qed.

Lemma py_lt_asym x y : py_lt x y = true → py_lt y x = false.
Proof.
  unfold py_lt. destruct (exact x) as [a|], (exact y) as [b|]; try discriminate.
  rewrite (xcompare_antisym a b). by destruct (xcompare a b).
Qed.

Lemma py_le_refl x : is_nan x = false → py_le x x = true.
Proof.
  intros [a Ha]%exact_not_nan. unfold py_le. by rewrite Ha, xcompare_refl.
Qed.

Lemma py_lt_le x y : py_lt x y = true → py_le x y = true.
Proof.
  intros (a & b & Ha & Hb & Hc)%py_lt_spec. apply py_le_spec.
  exists a, b. repeat split; auto. congruence.
Qed.

(** On numbers other than NaN the order is total. *)
Lemma py_lt_false_le x y :
  is_nan x = false → is_nan y = false → py_lt x y = false → py_le y x = true.
Proof.
  intros [a Ha]%exact_not_nan [b Hb]%exact_not_nan. unfold py_lt, py_le.
  rewrite Ha, Hb, (xcompare_antisym a b). by destruct (xcompare a b).
Qed.

Lemma py_le_lt_trans x y z : py_le x y = true → py_lt y z = true → py_lt x z = true.
Proof.
  intros (a & b & Ha & Hb & Hab)%py_le_spec (b' & c & Hb' & Hc & Hbc)%py_lt_spec.
  assert (b' = b) as -> by congruence.
  apply py_lt_spec. exists a, c. eauto using xcompare_le_lt_trans.
Qed.

Lemma py_le_trans x y z : py_le x y = true → py_le y z = true → py_le x z = true.
Proof.
  intros (a & b & Ha & Hb & Hab)%py_le_spec (b' & c & Hb' & Hc & Hbc)%py_le_spec.
  assert (b' = b) as -> by congruence.
  apply py_le_spec. exists a, c. eauto using xcompare_le_trans.
Qed.

Lemma py_le_lt_false x y : py_le x y = true → py_lt y x = false.
Proof.
  intros (a & b & Ha & Hb & Hab)%py_le_spec. unfold py_lt.
  rewrite Ha, Hb, (xcompare_antisym a b). by destruct (xcompare a b).
Qed.




Lemma py_eq_refl x : is_nan x = false → py_eq x x = true.
Proof.
  intros [a Ha]%exact_not_nan. unfold py_eq. by rewrite Ha, xcompare_refl.
Qed.

Lemma py_le_not_nan x y : py_le x y = true → is_nan x = false ∧ is_nan y = false.
Proof.
  intros (a & b & Ha & Hb & _)%py_le_spec.
  split; [destruct x as [|[]]|destruct y as [|[]]]; simpl in *; congruence.
Qed.

(** Rounding an integer never produces NaN. *)
Lemma shr_1_nonneg mrs : 0 ≤ shr_m mrs → 0 ≤ shr_m (shr_1 mrs).
Proof. destruct mrs as [[|[p|p|]|p] r s]; simpl; lia. Qed.

Lemma iter_shr_1_nonneg p mrs : 0 ≤ shr_m mrs → 0 ≤ shr_m (SpecFloat.iter_pos shr_1 p mrs).
Proof.
  revert mrs. induction p as [p IH|p IH|]; intros mrs Hm; simpl;
    auto using shr_1_nonneg.
Qed.

Lemma shr_fexp_nonneg m e l : 0 ≤ m → 0 ≤ shr_m (shr_fexp prec emax m e l).1.
Proof.
  intros Hm. unfold shr_fexp, shr.
  assert (0 ≤ shr_m (shr_record_of_loc m l)) by (by destruct l as [|[]]).
  destruct (_ - e); simpl; auto using iter_shr_1_nonneg.
Qed.

Lemma binary_round_aux_not_nan s m e l :
  0 ≤ m → binary_round_aux prec emax s m e l ≠ S754_nan.
Proof.
  intros Hm. unfold binary_round_aux.
  pose proof (shr_fexp_nonneg m e l Hm) as H1.
  destruct (shr_fexp prec emax m e l) as [mrs' e']. simpl in H1.
  assert (0 ≤ round_nearest_even (shr_m mrs') (loc_of_shr_record mrs')) as H2.
  { unfold round_nearest_even.
    destruct (loc_of_shr_record mrs') as [|[]]; try destruct (Z.even _); lia. }
  pose proof (shr_fexp_nonneg _ e' loc_Exact H2) as H3.
  destruct (shr_fexp prec emax _ e' loc_Exact) as [mrs'' e'']. simpl in H3.
  destruct (shr_m mrs''); try lia; try done.
  by destruct (e'' <=? _).
Qed.

Lemma binary_normalize_not_nan m e s : binary_normalize prec emax m e s ≠ S754_nan.
Proof.
  destruct m as [|p|p]; simpl; [done| |];
    unfold binary_round; destruct (shl_align _ _ _);
    by apply binary_round_aux_not_nan.
Qed.

Lemma int_to_float_not_nan z f : int_to_float z = Ok f → f ≠ S754_nan.
Proof.
  unfold int_to_float. pose proof (binary_normalize_not_nan z 0 false) as Hn.
  destruct (binary_normalize prec emax z 0 false); intros; simplify_eq; done.
Qed.

(** The only exception of [float(z)] is OverflowError. *)
Lemma int_to_float_raise (z : Z) (e : exn) :
  int_to_float z = Raise e → e = OverflowError.
Proof.
  unfold int_to_float. destruct (binary_normalize prec emax z 0 false); congruence.
Qed.

End NumFacts.

(** ** Clipping *)

Section Clip.
Import NumFacts.

Lemma min2_proper (x hi : number) : proper x → proper (min2 x hi).
Proof.
  unfold min2, proper. simpl. intros Hx.
  destruct (py_lt hi x) eqn:E; auto.
  apply py_lt_le, py_le_not_nan in E. tauto.
Qed.

Lemma clip_lower (lo hi x : number) :
  proper lo → proper x → py_le lo (clip lo hi x) = true.
Proof.
  intros Hlo Hx. unfold clip, max2. simpl.
  destruct (py_lt (min2 x hi) lo) eqn:E.
  - by apply py_le_refl.
  - apply py_lt_false_le; auto. by apply min2_proper.
Qed.

Lemma clip_upper (lo hi x : number) :
  proper x → py_le lo hi = true → py_le (clip lo hi x) hi = true.
Proof.
  intros Hx Hle. unfold clip, max2, min2. simpl.
  destruct (py_lt hi x) eqn:E1.
  - destruct (py_lt hi lo); auto.
    apply py_le_refl. apply py_le_not_nan in Hle. tauto.
  - destruct (py_lt x lo); auto.
    apply py_lt_false_le; auto. apply py_le_not_nan in Hle. tauto.
Qed.

Lemma clip_inverted (lo hi x : number) :
  proper x → py_lt hi lo = true → clip lo hi x = lo.
Proof.
  intros Hx Hlt. unfold clip, max2, min2. simpl.
  destruct (py_lt hi x) eqn:E1.
  - by rewrite Hlt.
  - assert (py_lt x lo = true) as ->; auto.
    eapply py_le_lt_trans; eauto. apply py_lt_false_le; auto.
    apply py_lt_le, py_le_not_nan in Hlt. tauto.
Qed.

Lemma clip_idempotent (lo hi x : number) :
  clip lo hi (clip lo hi x) = clip lo hi x.
Proof.
  unfold clip, max2, min2. simpl.
  destruct (py_lt hi x) eqn:E1.
  - destruct (py_lt hi lo) eqn:E2.
    + by rewrite !E2.
    + by rewrite py_lt_irrefl, E2.
  - destruct (py_lt x lo) eqn:E2.
    + destruct (py_lt hi lo) eqn:E3.
      * by rewrite E3.
      * by rewrite py_lt_irrefl.
    + by rewrite E1, E2.
Qed.

Lemma clip_values_elementwise (data : list number) (lo hi : number) :
  elementwise (clip lo hi) data (clip_values data lo hi).
Proof.
  unfold elementwise, clip_values. split.
  - apply length_map.
  - intros i x Hi. rewrite list_lookup_fmap, Hi. reflexivity.
Qed.

(** C3, as amended.  For every list of numbers and thresholds [lo], [hi]
    (NaN apart), [clip_values data lo hi] has the length of [data], its
    [i]-th element depends on the [i]-th element of [data] only, and every
    element [x] of it satisfies [lo <= x]; it satisfies [x <= hi] as well
    whenever [lo <= hi]. *)
Theorem clip_values_bounds (data : list number) (lo hi : number) :
  Forall proper data → proper lo →
  elementwise (clip lo hi) data (clip_values data lo hi) ∧
  Forall (λ x, py_le lo x = true) (clip_values data lo hi) ∧
  (py_le lo hi = true → Forall (within lo hi) (clip_values data lo hi)).
Proof.
  intros Hdata Hlo. split; [apply clip_values_elementwise|].
  unfold clip_values. split.
  - apply Forall_fmap. eapply Forall_impl; [exact Hdata|].
    intros x Hx. simpl. by apply clip_lower.
  - intros Hle. apply Forall_fmap. eapply Forall_impl; [exact Hdata|].
    intros x Hx. split; simpl; [by apply clip_lower | by apply clip_upper].
Qed.

Lemma clip_values_bounds_witness :
  let data := PInt <$> [1; 5; 10; 15; 20] in
  Forall (within (PInt 5) (PInt 15)) (clip_values data (PInt 5) (PInt 15)).
Proof.
  intros data.
  refine (proj2 (proj2 (clip_values_bounds data (PInt 5) (PInt 15) _ _)) _).
  - repeat constructor.
  - reflexivity.
  - reflexivity.
Defined.

(** C3 as stated fails when the thresholds are inverted: clipping [5]
    to [lo = 10], [hi = 0] gives [10], which is not [<= 0]. *)
Lemma clip_claim_counterexample : ¬ clip_claim [PInt 5] (PInt 10) (PInt 0).
Proof.
  intros [_ Hin]. apply Forall_inv in Hin. destruct Hin as [_ Hhi].
  vm_compute in Hhi. discriminate.
Qed.

(** C8.  [clip_values] is idempotent, for every list and thresholds. *)
Theorem clip_values_idempotent (data : list number) (lo hi : number) :
  clip_values (clip_values data lo hi) lo hi = clip_values data lo hi.
Proof.
  unfold clip_values. rewrite <- list_fmap_compose.
  apply list_fmap_ext. intros _ x _. apply clip_idempotent.
Qed.

(** A NaN element is outside the order and passes through unchanged,
    whatever the thresholds. *)
Lemma clip_nan (lo hi : number) : clip lo hi (PFloat S754_nan) = PFloat S754_nan.
Proof.
  unfold clip, max2, min2. simpl. unfold py_lt. simpl.
  by destruct (exact hi), (exact lo).
Qed.

Lemma is_nan_true (x : number) : is_nan x = true → x = PFloat S754_nan.
Proof. by destruct x as [z|[]]. Qed.

(** C9, as amended.  Whenever [min_threshold > max_threshold],
    [clip_values data min_threshold max_threshold] is [data] with every
    element other than NaN replaced by [min_threshold] and every NaN
    element kept: it has the length of [data], and for a list without
    NaN every one of its elements is [min_threshold]. *)
Theorem clip_values_inverted (data : list number) (min_threshold max_threshold : number) :
  py_lt max_threshold min_threshold = true →
  clip_values data min_threshold max_threshold
  = (λ x, if is_nan x then x else min_threshold) <$> data ∧
  length (clip_values data min_threshold max_threshold) = length data ∧
  (Forall proper data →
   clip_values data min_threshold max_threshold
   = replicate (length data) min_threshold).
Proof.
  intros Hgt.
  assert (clip_values data min_threshold max_threshold
          = (λ x, if is_nan x then x else min_threshold) <$> data) as Heq.
  { unfold clip_values. apply list_fmap_ext. intros _ x _.
    destruct (is_nan x) eqn:Hx.
    - apply is_nan_true in Hx as ->. apply clip_nan.
    - by apply clip_inverted. }
  split; [exact Heq|]. split.
  - unfold clip_values. apply length_map.
  - intros Hdata. rewrite Heq. clear Heq.
    induction Hdata as [|x data Hx _ IH]; [done|].
    csimpl. unfold proper in Hx. by rewrite Hx, IH.
Qed.

Lemma clip_values_inverted_witness :
  clip_values [PInt 1; PFloat S754_nan; PInt 20] (PInt 10) (PInt 0)
  = [PInt 10; PFloat S754_nan; PInt 10] ∧
  clip_values (PInt <$> [1; 5; 20]) (PInt 10) (PInt 0) = replicate 3 (PInt 10).
Proof.
  split.
  - refine (proj1 (clip_values_inverted [PInt 1; PFloat S754_nan; PInt 20]
                     (PInt 10) (PInt 0) _)).
    reflexivity.
  - refine (proj2 (proj2 (clip_values_inverted (PInt <$> [1; 5; 20])
                            (PInt 10) (PInt 0) _)) _).
    + reflexivity.
    + repeat constructor.
Defined.

(** C9 as stated fails on a list that holds NaN: with thresholds
    [10 > 0], clipping [[nan, 5]] gives [[nan, 10]], whose first element
    is not [10]. *)
Lemma clip_values_inverted_counterexample :
  ¬ inverted_claim [PFloat S754_nan; PInt 5] (PInt 10) (PInt 0).
Proof.
  intros Hclaim. specialize (Hclaim eq_refl).
  apply Forall_inv in Hclaim. vm_compute in Hclaim. discriminate.
Qed.
End Clip.

(** ** Min-max normalisation *)

Section MinMax.
Import NumFacts.

Lemma zeros_replicate {A} `{PyNumber A} (data : list A) :
  zeros data = replicate (length data) n_zero_float.
Proof. unfold zeros. induction data; simpl; congruence. Qed.








(** The docstring example: [[0.0, 0.25, 0.5, 0.75, 1.0]]. *)
Example minmax_normalize_doc :
  minmax_normalize (PInt <$> [1; 2; 3; 4; 5]) (PFloat (S754_zero false)) (PInt 1)
  = Ok (PFloat <$> [ S754_zero false;
                     S754_finite false 4503599627370496 (-54);
                     S754_finite false 4503599627370496 (-53);
                     S754_finite false 6755399441055744 (-53);
                     S754_finite false 4503599627370496 (-52) ]).
Proof. vm_compute. reflexivity. Qed.

End MinMax.

(** ** Cleaning and filling *)

Section Cleaning.

Lemma is_numeric_nan_in_range (item : value) :
  oversized item = false →
  is_none_or_empty item = false →
  is_numeric_nan item = Ok (missing item).
Proof.
  destruct item as [|b|[z|f]|s|l]; simpl; try done.
  - unfold is_numeric_nan. simpl.
    destruct (int_to_float z) as [f|] eqn:E; [intros _ _|done].
    apply NumFacts.int_to_float_not_nan in E. by destruct f.
  - intros _ Hs. by rewrite Hs.
Qed.

Lemma is_none_or_empty_missing (item : value) :
  is_none_or_empty item = true → missing item = true.
Proof. by destruct item as [|b|[z|f]|s|l]. Qed.

(** Away from oversized ints, [fill_values] does what it is meant to. *)
Lemma fill_values_in_range (data : list value) (fill_value : value) :
  Forall (λ item, oversized item = false) data →
  fill_values data fill_value = Ok (fill_one fill_value <$> data).
Proof.
  induction 1 as [|item rest Hitem _ IH]; [done|].
  simpl. rewrite IH. unfold fill_one at 3.
  destruct (is_none_or_empty item) eqn:E.
  - by rewrite (is_none_or_empty_missing _ E).
  - by rewrite (is_numeric_nan_in_range _ Hitem E).
Qed.

Lemma fill_claim_in_range (data : list value) (fill_value : value) :
  Forall (λ item, oversized item = false) data → fill_claim data fill_value.
Proof.
  intros Hdata. exists (fill_one fill_value <$> data).
  split; [by apply fill_values_in_range|]. split.
  - apply length_fmap.
  - intros i x Hi. by rewrite list_lookup_fmap, Hi.
Qed.

(** Away from oversized ints, [clean_values] keeps exactly the elements
    that are not missing. *)
Lemma clean_values_in_range (data : list value) :
  Forall (λ item, oversized item = false) data →
  clean_values data = Ok (filter (λ item, missing item = false) data).
Proof.
  induction 1 as [|item rest Hitem _ IH]; [done|].
  simpl. rewrite IH.
  destruct (is_none_or_empty item) eqn:E.
  - rewrite filter_cons_False; [done|].
    by rewrite (is_none_or_empty_missing _ E).
  - rewrite (is_numeric_nan_in_range _ Hitem E). simpl.
    destruct (missing item) eqn:Em.
    + by rewrite filter_cons_False by (by rewrite Em).
    + by rewrite filter_cons_True by done.
Qed.

Lemma filter_keeps_all {A} (P : A → Prop) `{∀ x, Decision (P x)} (l : list A) :
  Forall P l → filter P l = l.
Proof.
  induction 1 as [|x l Hx _ IH]; [done|].
  by rewrite filter_cons_True, IH.
Qed.

Lemma clean_fill_in_range (data : list value) (fill_value : value) :
  missing fill_value = false → oversized fill_value = false →
  Forall (λ item, oversized item = false) data →
  clean_fill_claim data fill_value.
Proof.
  intros Hfv Hfv' Hdata. exists (fill_one fill_value <$> data).
  split; [by apply fill_values_in_range|].
  assert (Forall (λ item, missing item = false ∧ oversized item = false)
                 (fill_one fill_value <$> data)) as Hout.
  { apply Forall_fmap. eapply Forall_impl; [exact Hdata|].
    intros item Hitem. unfold fill_one. simpl.
    by destruct (missing item) eqn:E. }
  rewrite clean_values_in_range.
  - f_equal. apply filter_keeps_all.
    eapply Forall_impl; [exact Hout|]. by intros item [? _].
  - eapply Forall_impl; [exact Hout|]. by intros item [_ ?].
Qed.
End Cleaning.

Section CleaningDivergence.
(** C7 (divergence).  [10 ** 400] is an int, not a missing marker, so
    filling [[10 ** 400]] should return the list unchanged; instead
    [math.isnan] cannot convert the int to a float and the call raises
    OverflowError. *)
Theorem fill_values_oversized_int :
  missing huge_int = false ∧
  fill_values [huge_int] (VNum (PInt 0)) = Raise OverflowError ∧
  ¬ fill_claim [huge_int] (VNum (PInt 0)).
Proof.
  assert (fill_values [huge_int] (VNum (PInt 0)) = Raise OverflowError) as E
    by (vm_compute; reflexivity).
  repeat split; auto.
  intros (out & Hout & _). congruence.
Qed.

(** C10 (divergence).  [10 ** 400] is a legitimate fill value (it is not
    a missing marker); [fill_values([None], 10 ** 400)] returns
    [[10 ** 400]], on which [clean_values] raises OverflowError instead
    of returning it unchanged. *)
Theorem clean_after_fill_oversized_int :
  missing huge_int = false ∧
  fill_values [VNone] huge_int = Ok [huge_int] ∧
  clean_values [huge_int] = Raise OverflowError ∧
  ¬ clean_fill_claim [VNone] huge_int.
Proof.
  assert (fill_values [VNone] huge_int = Ok [huge_int]) as E1 by reflexivity.
  assert (clean_values [huge_int] = Raise OverflowError) as E2
    by (vm_compute; reflexivity).
  repeat split; auto.
  intros (out & Hout & Hclean). congruence.
Qed.
End CleaningDivergence.

(** ** Conversion of tokens to ints *)

Section ToInts.
Import Str.

Lemma is_decimal_facts (c : ascii) :
  is_decimal c = true →
  char_isdigit c = true ∧ int_isspace c = false ∧
  (code c =? 45)%N = false ∧ (code c =? 43)%N = false.
Proof.
  destruct c as [[] [] [] [] [] [] [] []]; vm_compute; intros; try done.
Qed.

Lemma isdigit_all_decimal (s : string) : all_decimal s = true → isdigit s = true.
Proof.
  destruct s as [|c s]; [done|]. unfold all_decimal, isdigit.
  generalize (String c s). clear. intros s.
  induction s as [|c s IH]; [done|]. simpl.
  intros [Hc Hs]%andb_true_iff.
  apply is_decimal_facts in Hc as (-> & _). auto.
Qed.

Lemma int_lstrip_decimal (s : string) : all_decimal s = true → int_lstrip s = s.
Proof.
  destruct s as [|c s]; [done|]. simpl.
  intros [Hc _]%andb_true_iff.
  by apply is_decimal_facts in Hc as (_ & -> & _).
Qed.

Lemma int_rstrip_decimal (s : string) :
  forall_chars is_decimal s = true → int_rstrip s = s.
Proof.
  induction s as [|c s IH]; [done|]. simpl.
  intros [Hc Hs]%andb_true_iff. rewrite (IH Hs).
  apply is_decimal_facts in Hc as (_ & -> & _). by destruct s.
Qed.

Lemma digits_value_decimal (s : string) (b : bool) (acc : Z) :
  forall_chars is_decimal s = true → s ≠ EmptyString →
  digits_value b acc s = Some (decimal_from acc s).
Proof.
  revert b acc. induction s as [|c s IH]; [done|]. simpl.
  intros b acc [Hc Hs]%andb_true_iff _. rewrite Hc.
  destruct s as [|c' s]; [done|]. by apply IH.
Qed.

Lemma count_digits_decimal (s : string) :
  forall_chars is_decimal s = true → count_digits s = Z.of_nat (String.length s).
Proof.
  induction s as [|c s IH]; [done|]. cbn [forall_chars count_digits String.length].
  intros [-> Hs]%andb_true_iff. rewrite (IH Hs). lia.
Qed.

(** What [int] does to a token of decimal digits: its value, unless the
    token is longer than the cap. *)
Lemma py_int_decimal_cases (s : string) :
  all_decimal s = true →
  py_int s = if too_long s then Raise ValueError else Ok (decimal s).
Proof.
  intros Hs. unfold py_int.
  rewrite (int_lstrip_decimal s Hs).
  destruct s as [|c s]; [done|]. unfold all_decimal in Hs.
  rewrite (int_rstrip_decimal _ Hs).
  pose proof Hs as [Hc _]%andb_true_iff.
  apply is_decimal_facts in Hc as (_ & _ & -> & ->). cbn [fst snd].
  rewrite (digits_value_decimal _ _ _ Hs) by done.
  by rewrite (count_digits_decimal _ Hs).
Qed.

Lemma py_int_decimal (s : string) :
  all_decimal s = true → too_long s = false → py_int s = Ok (decimal s).
Proof. intros Hs Hlen. by rewrite (py_int_decimal_cases s Hs), Hlen. Qed.

(** On tokens in which every digit is a decimal digit (in particular on
    ASCII tokens) and which are not longer than the cap of [int],
    [lst_to_ints] is as specified. *)
Lemma lst_to_ints_decimal (data : list string) :
  Forall (λ s, isdigit s = all_decimal s ∧ too_long s = false) data →
  to_ints_claim data.
Proof.
  unfold to_ints_claim. induction 1 as [|s data [Hs Hlen] _ IH]; [done|].
  simpl. rewrite Hs, IH. destruct (all_decimal s) eqn:E.
  - rewrite filter_cons_True by done. by rewrite (py_int_decimal s E Hlen).
  - rewrite filter_cons_False; [done|]. by rewrite E.
Qed.

(** The docstring example. *)
Example lst_to_ints_doc : lst_to_ints ["1"; "2"; "three"; "4"; "5five"] = Ok [1; 2; 4].
Proof. reflexivity. Qed.

(** C2 (divergence).  The superscript two is a digit for [str.isdigit]
    but not a decimal digit, so its token is neither dropped nor
    converted: [int] rejects it and [lst_to_ints] raises ValueError. *)
Theorem lst_to_ints_superscript :
  isdigit superscript_two = true ∧
  all_decimal superscript_two = false ∧
  lst_to_ints [superscript_two] = Raise ValueError ∧
  ¬ to_ints_claim [superscript_two].
Proof.
  repeat split; try reflexivity. unfold to_ints_claim. discriminate.
Qed.
End ToInts.

(** ** Stop-word removal *)

Section StopWords.
Import Str.
Local Arguments append !_ _ / : simpl nomatch.

Lemma app_assoc_char (w : string) (c : ascii) (rest : string) :
  (w +:+ String c EmptyString) +:+ rest = w +:+ String c rest.
Proof. induction w as [|d w IH]; simpl; congruence. Qed.

Lemma word_snoc (w : string) (c : ascii) :
  (w = EmptyString ∨ word w) → char_isspace c = false →
  word (w +:+ String c EmptyString).
Proof.
  intros Hw Hc. split.
  - by destruct w.
  - assert (forall_chars (λ c, negb (char_isspace c)) w = true) as Hall.
    { destruct Hw as [->|[_ ?]]; auto. }
    clear Hw. induction w as [|d w IH]; simpl in *.
    + by rewrite Hc.
    + apply andb_true_iff in Hall as [-> Hall]. auto.
Qed.

Lemma splits_as_blank_cons (c : ascii) (text : string) (words : list string) :
  char_isspace c = true → splits_as text words → splits_as (String c text) words.
Proof.
  intros Hc [ws Hws|ws w rest words' Hws Hw Hrest Htail].
  - apply splits_blank. unfold blank in *. simpl. by rewrite Hc.
  - apply (splits_word (String c ws) w rest words'); auto.
    unfold blank in *. simpl. by rewrite Hc.
Qed.

(** [split_from] with the run [w] in hand recognises the words of
    [w +:+ text]. *)
Lemma split_from_splits (text : string) :
  splits_as text (split_from EmptyString text) ∧
  ∀ w, word w → splits_as (w +:+ text) (split_from w text).
Proof.
  induction text as [|c text [IH0 IHw]].
  - split; [by apply splits_blank|].
    intros w Hw. simpl. destruct w as [|d w]; [by destruct Hw|].
    apply (splits_word EmptyString (String d w) EmptyString []); try done.
    by apply splits_blank.
  - simpl. destruct (char_isspace c) eqn:Hc.
    + split; [by apply splits_as_blank_cons|].
      intros w Hw. destruct w as [|d w]; [by destruct Hw|].
      apply (splits_word EmptyString (String d w) (String c text)); try done.
      by apply splits_as_blank_cons.
    + split.
      * apply (IHw (String c EmptyString)). apply (word_snoc EmptyString); auto.
      * intros w Hw. rewrite <- app_assoc_char. apply IHw.
        apply word_snoc; auto.
Qed.

Lemma split_splits (text : string) : splits_as text (split text).
Proof. apply split_from_splits. Qed.

Lemma splits_as_words (text : string) (words : list string) :
  splits_as text words → Forall word words.
Proof. induction 1; auto. Qed.

(** Reading a word [w] extends the run in hand by [w]. *)
Lemma split_from_word (w acc text : string) :
  forall_chars (λ c, negb (char_isspace c)) w = true →
  split_from acc (w +:+ text) = split_from (acc +:+ w) text.
Proof.
  revert acc. induction w as [|c w IH]; intros acc Hw; simpl in *.
  - f_equal. clear. induction acc; simpl; congruence.
  - apply andb_true_iff in Hw as [Hc Hw].
    apply negb_true_iff in Hc. rewrite Hc, (IH _ Hw).
    by rewrite app_assoc_char.
Qed.

(** Words joined by single spaces split back into the same words. *)
Lemma split_join (words : list string) :
  Forall word words → split (join " " words) = words.
Proof.
  induction 1 as [|w rest [Hne Hw] Hrest IH]; [done|].
  unfold split in *. destruct rest as [|w' rest].
  - simpl. replace w with (w +:+ EmptyString) at 1
      by (clear; induction w; simpl; congruence).
    rewrite (split_from_word w EmptyString EmptyString Hw). simpl.
    by destruct w.
  - change (join " " (w :: w' :: rest))
      with (w +:+ String " " (join " " (w' :: rest))).
    rewrite (split_from_word w EmptyString _ Hw).
    change (EmptyString +:+ w) with w.
    cbn [split_from]. change (char_isspace " ") with true. cbv iota.
    rewrite IH. by destruct w.
Qed.

(** C4.  [clean_stop_words] splits the text on whitespace into words,
    keeps exactly the words whose lowercased form is not in the
    stop-word set (the word is compared as it stands, punctuation
    included), and joins the kept words, in their original order, with
    single spaces: splitting the result again gives the kept words. *)
Theorem clean_stop_words_spec (text : string) (stopwords : gset string) :
  ∃ words kept,
    splits_as text words ∧
    kept = filter (λ w, lower w ∉ stopwords) words ∧
    (∀ w, w ∈ kept ↔ w ∈ words ∧ lower w ∉ stopwords) ∧
    clean_stop_words text stopwords = join " " kept ∧
    split (clean_stop_words text stopwords) = kept.
Proof.
  exists (split text), (filter (λ w, lower w ∉ stopwords) (split text)).
  split; [apply split_splits|]. split; [done|]. split.
  - intros w. rewrite list_elem_of_filter. tauto.
  - split; [done|]. unfold clean_stop_words. apply split_join.
    pose proof (splits_as_words _ _ (split_splits text)) as Hwords.
    rewrite Forall_forall in Hwords. apply Forall_forall.
    intros w [_ Hw]%list_elem_of_filter. auto.
Qed.

(** The docstring example; ["removal."] and the capitalised ["This"]
    show that punctuation is kept and that the word, not the stop-word,
    is lowercased. *)
Example clean_stop_words_doc :
  clean_stop_words "This is a test of the stopword removal."
                   {[ "is"; "a"; "the"; "this" ]}
  = "test of stopword removal.".
Proof. vm_compute. reflexivity. Qed.

Example clean_stop_words_punctuation :
  clean_stop_words "Stop. stop" {[ "stop" ]} = "Stop.".
Proof. vm_compute. reflexivity. Qed.
End StopWords.

(** ** Shuffling *)

Section ShuffleFacts.
Context {A G : Type}.
Variable randbelow : G → nat → nat * G.
Variable seed_state : Z → G.

(** The generator's contract: [randbelow(n)] lies in [range(n)]. *)
Hypothesis randbelow_range : ∀ g n, (0 < n)%nat → ((randbelow g n).1 < n)%nat.

(** The order used by [sorted]. *)
Variable R : relation A.
Context `{∀ x y, Decision (R x y)} `{!Transitive R} `{!AntiSymm (=) R} `{!Total R}.




End ShuffleFacts.



(** The run behind the witness. *)
Example lst_shuffle_run :
  lst_shuffle lcg_randbelow lcg_seed [1; 2; 3; 4; 5] (Some 42) 0
  = Ok ([1; 2; 5; 4; 3], 1668674806).
Proof. vm_compute. reflexivity. Qed.

(** ** Z-score standardisation *)

Section Standardize.
Import NumFacts.

(** In every arithmetic the function computes what is specified. *)
Lemma z_score_standardize_as_specified {A} `{PyNumber A} (data : list A) :
  z_score_standardize data = z_score_spec data.
Proof.
  destruct data as [|x rest]; [done|].
  unfold z_score_standardize, z_score_spec, population_std, population_mean.
  rewrite <- (zeros_replicate (x :: rest)).
  destruct (py_sum (x :: rest)) as [total|]; [|done]. simpl.
  destruct (n_truediv total _) as [mean|]; [|done]. simpl.
  destruct (n_sub x mean) as [d|]; [|done]. simpl.
  destruct (n_pow d Two) as [d2|]; [|done]. simpl.
  destruct (n_add (n_int 0) d2) as [acc|]; [|done]. simpl.
  destruct (sum_from _ acc rest) as [squares|]; [|done]. simpl.
  destruct (n_truediv squares _) as [variance|]; [|done]. simpl.
  by destruct (n_pow variance Half) as [std|].
Qed.

(** The run of the test suite, [[1, 2, 3, 4, 5]]: mean [3.0], variance
    [2.0], and scores [-2/sqrt(2)], [-1/sqrt(2)], [0.0], [1/sqrt(2)],
    [2/sqrt(2)] as binary64 floats. *)
Example z_score_standardize_run :
  z_score_standardize (PInt <$> [1; 2; 3; 4; 5])
  = Ok (PFloat <$> [ S754_finite true 0x16a09e667f3bcc (-52);
                     S754_finite true 0x16a09e667f3bcc (-53);
                     S754_zero false;
                     S754_finite false 0x16a09e667f3bcc (-53);
                     S754_finite false 0x16a09e667f3bcc (-52) ]).
Proof. vm_compute. reflexivity. Qed.

(** *** Rounding a positive int never gives zero *)

Lemma digits2_pos_lower (m : positive) :
  2 ^ (Z.pos (digits2_pos m) - 1) ≤ Z.pos m.
Proof.
  induction m as [m IH|m IH|]; [| |done]; cbn [digits2_pos];
    rewrite Pos2Z.inj_succ;
    replace (Z.succ (Z.pos (digits2_pos m)) - 1)
      with (Z.succ (Z.pos (digits2_pos m) - 1)) by lia;
    rewrite Z.pow_succ_r by lia; lia.
Qed.

Lemma shr_1_half mrs : 0 ≤ shr_m mrs → shr_m (shr_1 mrs) = shr_m mrs / 2.
Proof.
  destruct mrs as [[|[p|p|]|p] r s]; cbn [shr_m shr_1]; intros Hm; try lia;
    first [ apply (Z.div_unique _ _ _ 0); lia | apply (Z.div_unique _ _ _ 1); lia ].
Qed.

Lemma pow2_xI (p : positive) : 2 ^ Z.pos p~1 = 2 * (2 ^ Z.pos p * 2 ^ Z.pos p).
Proof.
  replace (Z.pos p~1) with (1 + Z.pos p + Z.pos p) by lia.
  rewrite !Z.pow_add_r by lia. change (2 ^ 1) with 2. lia.
Qed.

Lemma pow2_xO (p : positive) : 2 ^ Z.pos p~0 = 2 ^ Z.pos p * 2 ^ Z.pos p.
Proof.
  replace (Z.pos p~0) with (Z.pos p + Z.pos p) by lia.
  by rewrite Z.pow_add_r by lia.
Qed.

Lemma iter_shr_1_div p mrs :
  0 ≤ shr_m mrs →
  shr_m (SpecFloat.iter_pos shr_1 p mrs) = shr_m mrs / 2 ^ Z.pos p.
Proof.
  revert mrs. induction p as [p IH|p IH|]; intros mrs Hm; cbn [SpecFloat.iter_pos].
  - rewrite IH by auto using iter_shr_1_nonneg, shr_1_nonneg.
    rewrite IH by auto using shr_1_nonneg.
    rewrite shr_1_half by done.
    pose proof (Z.pow_pos_nonneg 2 (Z.pos p) ltac:(lia) ltac:(lia)).
    rewrite !Z.div_div by lia. by rewrite pow2_xI.
  - rewrite IH by auto using iter_shr_1_nonneg.
    rewrite IH by done.
    pose proof (Z.pow_pos_nonneg 2 (Z.pos p) ltac:(lia) ltac:(lia)).
    rewrite !Z.div_div by lia. by rewrite pow2_xO.
  - rewrite shr_1_half by done. done.
Qed.

(** One rounding shift of a positive mantissa at an exponent not below
    the least one keeps the mantissa positive. *)
Lemma shr_fexp_positive (m : positive) (e : Z) (l : location) :
  emin prec emax ≤ e →
  0 < shr_m (shr_fexp prec emax (Z.pos m) e l).1 ∧
  emin prec emax ≤ (shr_fexp prec emax (Z.pos m) e l).2.
Proof.
  intros He. unfold shr_fexp, shr, fexp. cbn [Zdigits2].
  assert (shr_m (shr_record_of_loc (Z.pos m) l) = Z.pos m) as Hm
    by (by destruct l as [|[]]).
  destruct (Z.max (Z.pos (digits2_pos m) + e - prec) (emin prec emax) - e)
    as [|n|n] eqn:Hn; cbn [fst snd]; rewrite ?Hm; try (split; lia).
  split; [|lia].
  rewrite iter_shr_1_div, Hm by lia.
  apply Z.div_str_pos. split; [lia|].
  pose proof (digits2_pos_lower m) as Hd.
  assert (Z.pos n ≤ Z.pos (digits2_pos m) - 1) as Hle by (unfold prec in *; lia).
  pose proof (Z.pow_le_mono_r 2 _ _ ltac:(lia) Hle). lia.
Qed.

Lemma binary_round_aux_nonzero (sx : bool) (m : positive) (e : Z) (l : location) :
  emin prec emax ≤ e →
  float_is_zero (binary_round_aux prec emax sx (Z.pos m) e l) = false.
Proof.
  intros He. unfold binary_round_aux.
  destruct (shr_fexp_positive m e l He) as [H1 He'].
  destruct (shr_fexp prec emax (Z.pos m) e l) as [mrs' e']. cbn [fst snd] in *.
  assert (0 < round_nearest_even (shr_m mrs') (loc_of_shr_record mrs')) as H2.
  { unfold round_nearest_even.
    destruct (loc_of_shr_record mrs') as [|[]]; try destruct (Z.even _); lia. }
  destruct (round_nearest_even _ _) as [|m2|m2]; try lia.
  destruct (shr_fexp_positive m2 e' loc_Exact He') as [H3 _].
  destruct (shr_fexp prec emax (Z.pos m2) e' loc_Exact) as [mrs'' e''].
  cbn [fst snd] in *.
  destruct (shr_m mrs''); try lia. by destruct (e'' <=? _).
Qed.

Lemma binary_round_aux_sign (sx : bool) (m e : Z) (l : location) s' m' e' :
  binary_round_aux prec emax sx m e l = S754_finite s' m' e' → s' = sx.
Proof.
  unfold binary_round_aux.
  destruct (shr_fexp prec emax m e l) as [mrs' e1].
  destruct (shr_fexp prec emax _ e1 loc_Exact) as [mrs'' e2].
  destruct (shr_m mrs''); try done. destruct (e2 <=? _); congruence.
Qed.

(** [float(n)] for a positive int [n] is a positive finite float. *)
Lemma int_to_float_positive (n : positive) (f : spec_float) :
  int_to_float (Z.pos n) = Ok f → ∃ m e, f = S754_finite false m e.
Proof.
  intros Hf. pose proof (int_to_float_not_nan _ _ Hf) as Hnan.
  unfold int_to_float in Hf. cbn [binary_normalize] in Hf.
  assert (float_is_zero (binary_round prec emax false n 0) = false
          ∧ ∀ s' m' e', binary_round prec emax false n 0 = S754_finite s' m' e'
                         → s' = false) as [Hz Hs].
  { unfold binary_round, shl_align.
    set (ex := fexp prec emax (Z.pos (digits2_pos n) + 0)).
    assert (emin prec emax ≤ ex) by (unfold ex, fexp; lia).
    destruct (ex - 0) as [|d|d]; split;
      try (apply binary_round_aux_nonzero; unfold emin, emax, prec; lia);
      try (intros s' m' e'; apply binary_round_aux_sign);
      by apply binary_round_aux_nonzero. }
  destruct (binary_round prec emax false n 0) as [s|s| |s m e];
    cbn [float_is_zero] in Hz; try done.
  - by injection Hf as <-.
  - injection Hf as <-. rewrite (Hs s m e eq_refl). eauto.
Qed.

(** *** Signs of the float operations *)

Lemma binary_round_aux_not_negative (m e : Z) (l : location) :
  not_negative (binary_round_aux prec emax false m e l).
Proof.
  destruct (binary_round_aux prec emax false m e l) as [s|s| |s m' e'] eqn:E; try done.
  apply binary_round_aux_sign in E as ->. done.
Qed.

Lemma SFmul_square (f : spec_float) : not_negative (SFmul prec emax f f).
Proof.
  destruct f as [s|s| |s m e]; cbn [SFmul]; try done.
  replace (xorb s s) with false by (by destruct s).
  apply binary_round_aux_not_negative.
Qed.

Lemma binary_normalize_sum (a b : positive) (e : Z) :
  not_negative (binary_normalize prec emax (Z.pos a + Z.pos b) e false).
Proof.
  change (Z.pos a + Z.pos b) with (Z.pos (a + b)).
  cbn [binary_normalize]. unfold binary_round.
  destruct (shl_align _ _ _). apply binary_round_aux_not_negative.
Qed.

Lemma SFadd_not_negative (x y : spec_float) :
  not_negative x → not_negative y → not_negative (SFadd prec emax x y).
Proof.
  destruct x as [sx|sx| |[] mx ex], y as [sy|sy| |[] my ey];
    cbn [SFadd not_negative]; try done;
    try (by destruct sx); try (by destruct sx, sy).
  intros _ _. cbn [cond_Zopp]. apply binary_normalize_sum.
Qed.

Lemma SFdiv_not_negative (x : spec_float) (m : positive) (e : Z) :
  not_negative x → not_negative (SFdiv prec emax x (S754_finite false m e)).
Proof.
  destruct x as [sx|sx| |[] mx ex]; cbn [SFdiv not_negative]; try done.
  intros _. destruct (SFdiv_core_binary _ _ _ _ _ _) as [[mz ez] lz].
  apply binary_round_aux_not_negative.
Qed.

(** *** The exceptions of the arithmetic *)

Lemma to_float_raise (x : number) (e : exn) :
  to_float x = Raise e → e = OverflowError.
Proof. destruct x; [apply int_to_float_raise|done]. Qed.

Lemma py_add_raise (x y : number) (e : exn) :
  py_add x y = Raise e → e = OverflowError.
Proof.
  destruct x as [a|f], y as [b|g]; cbn [py_add to_float]; try done;
    unfold mbind, outcome_bind;
    repeat match goal with
           | |- context [int_to_float ?z] =>
               let E := fresh in
               destruct (int_to_float z) eqn:E;
               [|apply int_to_float_raise in E; congruence]
           end; done.
Qed.

Lemma py_sub_raise (x y : number) (e : exn) :
  py_sub x y = Raise e → e = OverflowError.
Proof.
  destruct x as [a|f], y as [b|g]; cbn [py_sub to_float]; try done;
    unfold mbind, outcome_bind;
    repeat match goal with
           | |- context [int_to_float ?z] =>
               let E := fresh in
               destruct (int_to_float z) eqn:E;
               [|apply int_to_float_raise in E; congruence]
           end; done.
Qed.

Lemma py_sub_float (x : number) (f : spec_float) (r : number) :
  py_sub x (PFloat f) = Ok r → ∃ g, r = PFloat g.
Proof.
  destruct x as [a|g]; cbn [py_sub to_float]; unfold mbind, outcome_bind.
  - destruct (int_to_float a); [|done]. intros [= <-]. eauto.
  - intros [= <-]. eauto.
Qed.

Lemma py_pow_two_raise (x : number) (e : exn) :
  py_pow x Two = Raise e → e = OverflowError.
Proof.
  destruct x as [a|f]; cbn [py_pow to_float]; [done|].
  unfold mbind, outcome_bind, fmap, outcome_fmap, float_pow.
  destruct (SFmul prec emax f f); try done.
  destruct (float_is_finite f); [congruence|done].
Qed.

Lemma py_pow_two_float (f : spec_float) (r : number) :
  py_pow (PFloat f) Two = Ok r → r = PFloat (SFmul prec emax f f).
Proof.
  cbn [py_pow to_float]. unfold mbind, outcome_bind, fmap, outcome_fmap, float_pow.
  destruct (SFmul prec emax f f); try (by intros [= <-]).
  destruct (float_is_finite f); [done|by intros [= <-]].
Qed.

Lemma py_pow_half (f : spec_float) :
  not_negative f → ∃ g, py_pow (PFloat f) Half = Ok (PFloat g).
Proof. destruct f as [s|s| |[] m e]; cbn; try done; eauto. Qed.

Lemma py_add_square (acc : number) (f : spec_float) (r : number) :
  sum_of_squares acc → not_negative f →
  py_add acc (PFloat f) = Ok r → sum_of_squares r.
Proof.
  destruct acc as [z|a]; cbn [sum_of_squares py_add to_float].
  - intros -> Hf [= <-]. exact (SFadd_not_negative (S754_zero false) f I Hf).
  - intros Ha Hf [= <-]. by apply SFadd_not_negative.
Qed.

(** Division by a length: the divisor is a positive int, so the only
    exception is OverflowError, and a sum of squares gives a float that
    is not negative. *)
Lemma py_truediv_len (x : number) (n : Z) :
  0 < n →
  (∀ e, py_truediv x (PInt n) = Raise e → e = OverflowError) ∧
  (∀ r, py_truediv x (PInt n) = Ok r → ∃ g, r = PFloat g) ∧
  (∀ r, sum_of_squares x → py_truediv x (PInt n) = Ok r →
        ∃ g, r = PFloat g ∧ not_negative g).
Proof.
  destruct n as [|p|p]; try lia. intros _. destruct x as [a|f].
  - cbn [py_truediv sum_of_squares]. unfold int_truediv.
    change (Z.pos p =? 0) with false. cbv iota.
    destruct (Z.abs a =? 0) eqn:Ha.
    + split; [done|]. split; intros r; intros; simplify_eq/=; eauto.
      eexists. split; [done|]. done.
    + apply Z.eqb_neq in Ha.
      split; [|split].
      * destruct (binary_normalize _ _ _ _ _) as [s|s| |s m e]; try done.
        by intros e [= <-].
      * intros r. destruct (binary_normalize _ _ _ _ _) as [s|s| |s m e];
          try done; intros [= <-]; eauto.
      * intros r ->. done.
  - cbn [py_truediv to_float sum_of_squares]. unfold mbind, outcome_bind.
    destruct (int_to_float (Z.pos p)) as [fn|e0] eqn:E.
    + apply int_to_float_positive in E as (m & e' & ->).
      cbn [float_truediv float_is_zero fmap outcome_fmap].
      repeat split; try done; intros r; intros; simplify_eq; eauto.
      eexists. split; [done|]. by apply SFdiv_not_negative.
    + apply int_to_float_raise in E as ->.
      repeat split; try done. by intros e [= <-].
Qed.

Lemma sum_from_raise (f : number → outcome number) (acc : number)
    (data : list number) (e : exn) :
  (∀ x e, f x = Raise e → e = OverflowError) →
  sum_from f acc data = Raise e → e = OverflowError.
Proof.
  intros Hf. revert acc. induction data as [|x data IH]; intros acc; [done|].
  cbn [sum_from n_add number_PyNumber]. unfold mbind at 1, outcome_bind at 1.
  destruct (f x) as [v|e0] eqn:Hv; [|intros [= <-]; eauto].
  unfold mbind at 1, outcome_bind at 1.
  destruct (py_add acc v) as [acc'|e0] eqn:Hacc; [apply IH|].
  intros [= <-]. eauto using py_add_raise.
Qed.

Lemma comprehension_raise {B C} (f : B → outcome C) (l : list B) (e : exn) :
  (∀ x e, f x = Raise e → e = OverflowError) →
  comprehension f l = Raise e → e = OverflowError.
Proof.
  intros Hf. induction l as [|x l IH]; [done|].
  cbn [comprehension]. unfold mbind at 1, outcome_bind at 1.
  destruct (f x) as [y|e0] eqn:Hy; [|intros [= <-]; eauto].
  unfold mbind, outcome_bind.
  destruct (comprehension f l) as [ys|e0]; [done|].
  intros [= <-]. by apply IH.
Qed.

Lemma comprehension_elements {B C} (f : B → outcome C) (l : list B) (out : list C) :
  comprehension f l = Ok out →
  length out = length l ∧
  ∀ i x, l !! i = Some x → ∃ y, f x = Ok y ∧ out !! i = Some y.
Proof.
  revert out. induction l as [|x0 l IH]; intros out.
  - by intros [= <-].
  - cbn [comprehension]. unfold mbind, outcome_bind.
    destruct (f x0) as [y0|] eqn:Hy; [|done].
    destruct (comprehension f l) as [ys|]; [|done].
    destruct (IH ys eq_refl) as [Hlen Hlook].
    intros [= <-]. split; [simpl; by rewrite Hlen|].
    intros [|i] x; cbn.
    + intros [= <-]. eauto.
    + apply Hlook.
Qed.

(** The squared deviations from a float mean. *)
Lemma squares_raise (mean : number) (x : number) (e : exn) :
  (d ← py_sub x mean; py_pow d Two) = Raise e → e = OverflowError.
Proof.
  unfold mbind, outcome_bind.
  destruct (py_sub x mean) as [d|e0] eqn:Hd.
  - apply py_pow_two_raise.
  - intros [= <-]. eauto using py_sub_raise.
Qed.

Lemma squares_float (fm : spec_float) (x v : number) :
  (d ← py_sub x (PFloat fm); py_pow d Two) = Ok v →
  ∃ g, v = PFloat g ∧ not_negative g.
Proof.
  unfold mbind, outcome_bind.
  destruct (py_sub x (PFloat fm)) as [d|] eqn:Hd; [|done].
  apply py_sub_float in Hd as [g ->].
  intros ->%py_pow_two_float. eauto using SFmul_square.
Qed.

Lemma sum_from_squares (fm : spec_float) (acc : number) (data : list number)
    (r : number) :
  sum_of_squares acc →
  sum_from (λ item, d ← py_sub item (PFloat fm); py_pow d Two) acc data = Ok r →
  sum_of_squares r.
Proof.
  set (sq := λ item, d ← py_sub item (PFloat fm); py_pow d Two).
  revert acc. induction data as [|x data IH]; intros acc Hacc.
  - by intros [= <-].
  - cbn [sum_from n_add number_PyNumber]. unfold mbind at 1, outcome_bind at 1.
    destruct (sq x) as [v|] eqn:Hv; [|done].
    apply squares_float in Hv as (g & -> & Hg).
    unfold mbind at 1, outcome_bind at 1.
    destruct (py_add acc (PFloat g)) as [acc'|] eqn:Hacc'; [|done].
    apply IH. by eapply py_add_square.
Qed.

Lemma py_eq_zero_float (f : spec_float) :
  py_eq (PFloat f) (PInt 0) = false → float_is_zero f = false.
Proof. by destruct f. Qed.

(** The scores: a deviation divided by a float that is not zero. *)
Lemma score_raise (fm fs : spec_float) (x : number) (e : exn) :
  float_is_zero fs = false →
  (d ← py_sub x (PFloat fm); py_truediv d (PFloat fs)) = Raise e →
  e = OverflowError.
Proof.
  intros Hfs. unfold mbind at 1, outcome_bind at 1.
  destruct (py_sub x (PFloat fm)) as [d|e0] eqn:Hd.
  - apply py_sub_float in Hd as [g ->].
    cbn [py_truediv to_float]. unfold mbind, outcome_bind, float_truediv.
    by rewrite Hfs.
  - intros [= <-]. eauto using py_sub_raise.
Qed.

(** The only exception [z_score_standardize] raises is OverflowError:
    the guard on a zero standard deviation leaves no division by zero,
    and the variance is never negative. *)
Lemma z_score_standardize_raise (data : list number) (e : exn) :
  z_score_standardize data = Raise e → e = OverflowError.
Proof.
  destruct data as [|x0 rest]; [done|].
  set (data := x0 :: rest).
  assert (0 < Z.of_nat (length data)) as Hlen by (simpl; lia).
  unfold z_score_standardize. fold data.
  cbn [n_truediv n_sub n_pow n_eq n_int number_PyNumber py_len].
  change (match data with [] => Ok data | _ => ?b end) with b.
  unfold mbind at 1, outcome_bind at 1.
  destruct (py_sum data) as [total|e0] eqn:Hsum;
    [|intros [= <-]; eapply (sum_from_raise Ok); [done|exact Hsum]].
  destruct (py_truediv_len total _ Hlen) as (Hr1 & Hf1 & _).
  unfold mbind at 1, outcome_bind at 1.
  destruct (py_truediv total _) as [mean|e0] eqn:Hmean;
    [|intros [= <-]; eauto].
  destruct (Hf1 _ eq_refl) as [fm ->].
  unfold mbind at 1, outcome_bind at 1.
  destruct (sum_from _ (PInt 0) data) as [squares|e0] eqn:Hsq;
    [|intros [= <-]; eapply sum_from_raise; [|exact Hsq];
      intros y e'; apply squares_raise].
  apply sum_from_squares in Hsq; [|done].
  destruct (py_truediv_len squares _ Hlen) as (Hr2 & _ & Hf2).
  unfold mbind at 1, outcome_bind at 1.
  destruct (py_truediv squares _) as [variance|e0] eqn:Hvar;
    [|intros [= <-]; eauto].
  destruct (Hf2 _ Hsq eq_refl) as (fv & -> & Hfv).
  destruct (py_pow_half fv Hfv) as [fs ->].
  unfold mbind at 1, outcome_bind at 1.
  destruct (py_eq (PFloat fs) (PInt 0)) eqn:Hz; [done|].
  apply py_eq_zero_float in Hz.
  apply comprehension_raise. intros y e'. by apply score_raise.
Qed.

(** C5, as amended.  [z_score_standardize] computes what is specified,
    in Python's arithmetic: the empty list gives the empty list; on a
    non-empty list the call either raises OverflowError (an int or a
    squared deviation beyond the float range) or returns a list of the
    length of the input, which is all [0.0] when the computed population
    standard deviation equals zero and holds [(x - mean) / std] at the
    place of each [x] otherwise, [mean] and [std] being the computed
    population mean and population standard deviation (variance over
    N).  On the input of the test suite, [[1, 2, 3, 4, 5]], the result
    has population mean 0 and population standard deviation 1 to within
    [1e-6]. *)
Theorem z_score_standardize_spec (data : list number) :
  z_score_standardize data = z_score_spec data ∧
  (data = [] → z_score_standardize data = Ok []) ∧
  (∀ e, z_score_standardize data = Raise e → e = OverflowError) ∧
  (∀ out, z_score_standardize data = Ok out → data ≠ [] →
     ∃ mean std,
       population_mean data = Ok mean ∧ population_std data = Ok std ∧
       length out = length data ∧
       ∀ i x, data !! i = Some x →
              if py_eq std (PInt 0)
              then out !! i = Some (PFloat (S754_zero false))
              else ∃ d y, py_sub x mean = Ok d ∧ py_truediv d std = Ok y ∧
                          out !! i = Some y) ∧
  (∃ out, z_score_standardize (PInt <$> [1; 2; 3; 4; 5]) = Ok out ∧
          standardized_within (1 # 1000000) out).
Proof.
  split; [apply z_score_standardize_as_specified|].
  split; [by intros ->|].
  split; [apply z_score_standardize_raise|].
  split.
  - intros out Hout Hne.
    rewrite z_score_standardize_as_specified in Hout. unfold z_score_spec in Hout.
    destruct data as [|x0 rest]; [done|]. set (data := x0 :: rest) in *.
    destruct (population_mean data) as [mean|]; [|done].
    unfold mbind at 1, outcome_bind at 1 in Hout.
    destruct (population_std data) as [std|]; [|done].
    unfold mbind at 1, outcome_bind at 1 in Hout.
    cbn [n_eq n_int n_zero_float n_sub n_truediv number_PyNumber] in Hout.
    exists mean, std. split; [done|]. split; [done|].
    destruct (py_eq std (PInt 0)).
    + assert (out = replicate (length data) (PFloat (S754_zero false))) as ->
        by congruence.
      split; [apply length_replicate|].
      intros i x Hi. apply lookup_replicate_2. by apply lookup_lt_Some in Hi.
    + apply comprehension_elements in Hout as [Hlen Hlook].
      split; [done|]. intros i x Hi.
      destruct (Hlook i x Hi) as (y & Hy & Hout).
      unfold mbind, outcome_bind in Hy.
      destruct (py_sub x mean) as [d|]; [|done]. eauto.
  - eexists. split; [vm_compute; reflexivity|].
    eexists. split; [vm_compute; reflexivity|].
    repeat split; apply Qle_bool_iff; vm_compute; reflexivity.
Qed.

Lemma z_score_standardize_spec_witness :
  let data := PInt <$> [1; 2; 3] in
  let out := PFloat <$> [ S754_finite true 0x13988e1409212e (-52);
                          S754_zero false;
                          S754_finite false 0x13988e1409212e (-52) ] in
  ∃ mean std,
    population_mean data = Ok mean ∧ population_std data = Ok std ∧
    length out = length data ∧
    ∀ i x, data !! i = Some x →
           if py_eq std (PInt 0)
           then out !! i = Some (PFloat (S754_zero false))
           else ∃ d y, py_sub x mean = Ok d ∧ py_truediv d std = Ok y ∧
                       out !! i = Some y.
Proof.
  intros data out.
  refine (proj1 (proj2 (proj2 (proj2 (z_score_standardize_spec data)))) out _ _).
  - vm_compute. reflexivity.
  - discriminate.
Defined.

(** C5 as stated fails in binary64, in three ways.  The squared
    deviations of [[1e-200, 0.0]] underflow to zero, so the computed
    standard deviation is zero and the result is all zeros, whose
    standard deviation is [0], not [1].  The squared deviations of
    [[1e200, 0.0]] overflow, and the call raises OverflowError instead
    of returning.  And where the call returns scores, they are rounded:
    those of [[1, 2, 4]] do not have mean exactly [0]. *)
Lemma z_score_claim_counterexample :
  ¬ z_score_claim [tiny; PFloat (S754_zero false)] ∧
  (z_score_standardize [big; PFloat (S754_zero false)] = Raise OverflowError ∧
   ¬ z_score_claim [big; PFloat (S754_zero false)]) ∧
  (z_score_standardize (PInt <$> [1; 2; 4])
   = Ok (PFloat <$> [ S754_finite true 0x111acee560242b (-52);
                      S754_finite true 0x111acee560242c (-54);
                      S754_finite false 0x1561829eb82d34 (-52) ]) ∧
   ¬ standardized_within 0
       (PFloat <$> [ S754_finite true 0x111acee560242b (-52);
                     S754_finite true 0x111acee560242c (-54);
                     S754_finite false 0x1561829eb82d34 (-52) ])).
Proof.
  assert (z_score_standardize [big; PFloat (S754_zero false)] = Raise OverflowError)
    as Hbig by (vm_compute; reflexivity).
  split; [|split; [split|split]].
  - intros [_ Hstd].
    destruct Hstd as (out & Hout & _ & s & Hs & Hone).
    + exists tiny, (PFloat (S754_zero false)).
      split; [left | split; [right; left | reflexivity]].
    + assert (out = [PFloat (S754_zero false); PFloat (S754_zero false)]) as ->.
      { vm_compute in Hout. congruence. }
      vm_compute in Hs. assert (s = PFloat (S754_zero false)) as -> by congruence.
      vm_compute in Hone. discriminate.
  - exact Hbig.
  - intros [_ Hstd].
    destruct Hstd as (out & Hout & _).
    + exists big, (PFloat (S754_zero false)).
      split; [left | split; [right; left | reflexivity]].
    + congruence.
  - vm_compute. reflexivity.
  - intros (qs & Hqs & Hmean & _).
    vm_compute in Hqs. injection Hqs as <-.
    revert Hmean. apply Qlt_not_le. vm_compute. reflexivity.
Qed.
End Standardize.

(** * Further properties of the library *)

(** ** Cleaning and filling: outcomes *)

Section CleaningOutcome.
Import NumFacts.

Lemma is_numeric_nan_oversized (item : value) :
  oversized item = true →
  is_none_or_empty item = false ∧ is_numeric_nan item = Raise OverflowError.
Proof.
  destruct item as [|b|[z|f]|s|l]; try done.
  unfold is_numeric_nan. simpl.
  destruct (int_to_float z) as [f|e] eqn:E; [done|]. intros _.
  apply int_to_float_raise in E as ->. done.
Qed.

Lemma existsb_elem_of {B} (p : B → bool) (l : list B) :
  existsb p l = true ↔ ∃ x, x ∈ l ∧ p x = true.
Proof.
  rewrite existsb_exists. split; intros (x & Hx & Hp); exists x; split; auto;
    by apply list_elem_of_In.
Qed.

Lemma clean_values_outcome_cases (data : list value) :
  clean_values data =
  if existsb oversized data then Raise OverflowError
  else Ok (filter (λ item, missing item = false) data).
Proof.
  induction data as [|item rest IH]; [done|]. simpl. rewrite IH.
  destruct (oversized item) eqn:Ho.
  - destruct (is_numeric_nan_oversized item Ho) as [-> ->]. done.
  - simpl. destruct (is_none_or_empty item) eqn:E.
    + rewrite filter_cons_False; [done|].
      by rewrite (is_none_or_empty_missing _ E).
    + rewrite (is_numeric_nan_in_range _ Ho E). simpl.
      destruct (missing item) eqn:Em.
      * by rewrite filter_cons_False by (by rewrite Em).
      * rewrite filter_cons_True by done. by destruct (existsb oversized rest).
Qed.

(** [clean_values] fails exactly when the list holds an int beyond the
    float range, with OverflowError; otherwise it returns the elements
    that are not missing markers, in their order. *)
Theorem clean_values_outcome (data : list value) :
  (clean_values data = Raise OverflowError
   ↔ ∃ item, item ∈ data ∧ oversized item = true) ∧
  (∀ e, clean_values data = Raise e → e = OverflowError) ∧
  (∀ out, clean_values data = Ok out →
          out = filter (λ item, missing item = false) data).
Proof.
  rewrite clean_values_outcome_cases, <- existsb_elem_of.
  destruct (existsb oversized data); (split; [done|split]); try done.
  - by intros e [= <-].
  - by intros out [= <-].
Qed.

Lemma fill_values_outcome_cases (data : list value) (fill_value : value) :
  fill_values data fill_value =
  if existsb oversized data then Raise OverflowError
  else Ok (fill_one fill_value <$> data).
Proof.
  induction data as [|item rest IH]; [done|]. simpl. rewrite IH.
  change (fill_one fill_value item) with (if missing item then fill_value else item).
  destruct (oversized item) eqn:Ho.
  - destruct (is_numeric_nan_oversized item Ho) as [-> ->]. done.
  - simpl. destruct (is_none_or_empty item) eqn:E.
    + rewrite (is_none_or_empty_missing _ E). by destruct (existsb oversized rest).
    + rewrite (is_numeric_nan_in_range _ Ho E). simpl.
      by destruct (existsb oversized rest).
Qed.

(** [fill_values] fails exactly when the list holds an int beyond the
    float range, with OverflowError; otherwise it returns a list of the
    same length in which the missing markers, and only they, are replaced
    by the fill value. *)
Theorem fill_values_outcome (data : list value) (fill_value : value) :
  (fill_values data fill_value = Raise OverflowError
   ↔ ∃ item, item ∈ data ∧ oversized item = true) ∧
  (∀ e, fill_values data fill_value = Raise e → e = OverflowError) ∧
  (∀ out, fill_values data fill_value = Ok out →
          out = fill_one fill_value <$> data ∧ length out = length data).
Proof.
  rewrite fill_values_outcome_cases, <- existsb_elem_of.
  destruct (existsb oversized data); (split; [done|split]); try done.
  - by intros e [= <-].
  - intros out [= <-]. by rewrite length_fmap.
Qed.

Lemma existsb_oversized_filter (P : value → Prop) `{∀ x, Decision (P x)} (data : list value) :
  existsb oversized data = false → existsb oversized (filter P data) = false.
Proof.
  induction data as [|item rest IH]; [done|]. simpl.
  intros [Ho Hrest]%orb_false_iff. rewrite filter_cons.
  destruct (decide (P item)); simpl; rewrite ?Ho; auto.
Qed.

(** A list returned by [clean_values] holds no missing marker, is a
    sublist of the input, and is left unchanged by a second cleaning. *)
Theorem clean_values_idempotent (data out : list value) :
  clean_values data = Ok out →
  Forall (λ item, missing item = false) out ∧
  sublist out data ∧
  clean_values out = Ok out.
Proof.
  rewrite clean_values_outcome_cases.
  destruct (existsb oversized data) eqn:E; [done|]. intros [= <-].
  assert (Forall (λ item, missing item = false)
            (filter (λ item, missing item = false) data)) as Hall.
  { apply Forall_forall. by intros item [? _]%list_elem_of_filter. }
  split; [done|]. split; [apply sublist_filter|].
  rewrite clean_values_outcome_cases, existsb_oversized_filter by done.
  f_equal. by apply filter_keeps_all.
Qed.

Lemma clean_values_idempotent_witness :
  clean_values [VNum (PInt 1); VNone; VStr "a"] = Ok [VNum (PInt 1); VStr "a"] ∧
  clean_values [VNum (PInt 1); VStr "a"] = Ok [VNum (PInt 1); VStr "a"].
Proof.
  split; [reflexivity|].
  apply (clean_values_idempotent [VNum (PInt 1); VNone; VStr "a"]). reflexivity.
Defined.

(** Filling with a missing marker and then cleaning is the same as
    cleaning at once, exceptions included. *)
Theorem clean_after_fill_with_missing (data : list value) (fill_value : value) :
  missing fill_value = true →
  (fill_values data fill_value ≫= clean_values) = clean_values data.
Proof.
  intros Hfv. rewrite fill_values_outcome_cases, (clean_values_outcome_cases data).
  destruct (existsb oversized data) eqn:E; [done|]. simpl.
  rewrite clean_values_outcome_cases.
  assert (oversized fill_value = false) as Hfv'
    by (by destruct fill_value as [|b|[z|f]|s|l]).
  induction data as [|item rest IH]; [done|].
  simpl in E. apply orb_false_iff in E as [Ho Hrest]. specialize (IH Hrest).
  csimpl. unfold fill_one at 1 3. destruct (missing item) eqn:Em.
  - rewrite Hfv'. simpl.
    rewrite !filter_cons_False by (by rewrite ?Hfv, ?Em). done.
  - rewrite Ho. simpl.
    rewrite !filter_cons_True by done.
    destruct (existsb oversized (fill_one fill_value <$> rest)); congruence.
Qed.

Lemma clean_after_fill_with_missing_witness :
  (fill_values [VNum (PInt 1); VStr ""] VNone ≫= clean_values)
  = clean_values [VNum (PInt 1); VStr ""].
Proof.
  apply (clean_after_fill_with_missing [VNum (PInt 1); VStr ""] VNone). reflexivity.
Defined.

(** The command line hands over strings only.  On a list of strings
    [clean_values] drops exactly the empty strings and [fill_values]
    replaces exactly the empty strings; in particular the words ["None"]
    and ["nan"] stay, and neither call raises. *)
Theorem cleaning_of_strings (args : list string) (fill_value : value) :
  clean_values (VStr <$> args) = Ok (VStr <$> filter (λ s, s ≠ "") args) ∧
  fill_values (VStr <$> args) fill_value
  = Ok ((λ s, if decide (s = "") then fill_value else VStr s) <$> args).
Proof.
  split.
  - induction args as [|s args IH]; [done|]. csimpl. rewrite IH.
    rewrite filter_cons. by destruct (decide (s = "")); destruct (decide (s ≠ "")).
  - induction args as [|s args IH]; [done|]. csimpl. rewrite IH.
    by destruct (decide (s = "")).
Qed.
End CleaningOutcome.

(** ** Conversion of tokens to ints: outcomes *)

Section ToIntsOutcome.
Import Str.

Lemma char_isdigit_facts (c : ascii) :
  char_isdigit c = true →
  int_isspace c = false ∧
  (code c =? 45)%N = false ∧ (code c =? 43)%N = false ∧ (code c =? 95)%N = false.
Proof.
  destruct c as [[] [] [] [] [] [] [] []]; vm_compute; intros; try done.
Qed.

Lemma int_rstrip_digits (s : string) :
  forall_chars char_isdigit s = true → int_rstrip s = s.
Proof.
  induction s as [|c s IH]; [done|]. simpl.
  intros [Hc Hs]%andb_true_iff. rewrite (IH Hs).
  apply char_isdigit_facts in Hc as (-> & _). by destruct s.
Qed.

Lemma digits_value_superscript (s : string) (b : bool) (acc : Z) :
  forall_chars char_isdigit s = true → forall_chars is_decimal s = false →
  digits_value b acc s = None.
Proof.
  revert b acc. induction s as [|c s IH]; [done|]. simpl.
  intros b acc [Hc Hs]%andb_true_iff Hd.
  destruct (is_decimal c); simpl in Hd; [by apply IH|].
  apply char_isdigit_facts in Hc as (_ & _ & _ & ->).
  by rewrite andb_false_r.
Qed.

(** A token of digits that are not all decimal is rejected by [int]. *)
Lemma py_int_superscript (s : string) :
  isdigit s = true → all_decimal s = false → py_int s = Raise ValueError.
Proof.
  destruct s as [|c s]; [done|]. unfold isdigit, all_decimal. intros Hs Hd.
  unfold py_int.
  pose proof Hs as [Hc _]%andb_true_iff.
  apply char_isdigit_facts in Hc as (Hsp & Hm & Hp & _).
  assert (int_lstrip (String c s) = String c s) as -> by (simpl; by rewrite Hsp).
  rewrite (int_rstrip_digits _ Hs), Hm, Hp. cbn [fst snd].
  by rewrite (digits_value_superscript _ _ _ Hs Hd).
Qed.

Lemma all_decimal_isdigit_false (s : string) : isdigit s = false → all_decimal s = false.
Proof.
  intros Hs. destruct (all_decimal s) eqn:E; [|done].
  apply isdigit_all_decimal in E. congruence.
Qed.

Lemma lst_to_ints_outcome_cases (data : list string) :
  lst_to_ints data =
  if existsb (λ s, isdigit s && (negb (all_decimal s) || too_long s)) data
  then Raise ValueError
  else Ok (decimal <$> filter (λ s, all_decimal s = true) data).
Proof.
  induction data as [|s data IH]; [done|]. simpl. rewrite IH.
  destruct (isdigit s) eqn:Hs; simpl.
  - destruct (all_decimal s) eqn:Hd; simpl.
    + rewrite (py_int_decimal_cases s Hd). destruct (too_long s); [done|]. simpl.
      rewrite filter_cons_True by done. by destruct (existsb _ data).
    + by rewrite (py_int_superscript s Hs Hd).
  - rewrite filter_cons_False; [done|].
    by rewrite (all_decimal_isdigit_false s Hs).
Qed.

(** [lst_to_ints] fails exactly when some token is made of digits that
    [int] does not convert: digits that are not all decimal digits, or
    more digits than the cap of [int] (4300).  It then raises ValueError.
    Otherwise it returns the values of the tokens made of decimal digits,
    in their order. *)
Theorem lst_to_ints_outcome (data : list string) :
  (lst_to_ints data = Raise ValueError
   ↔ ∃ token, token ∈ data ∧ isdigit token = true ∧
              (all_decimal token = false ∨ too_long token = true)) ∧
  (∀ e, lst_to_ints data = Raise e → e = ValueError) ∧
  (∀ out, lst_to_ints data = Ok out →
          out = decimal <$> filter (λ s, all_decimal s = true) data).
Proof.
  rewrite lst_to_ints_outcome_cases.
  assert (existsb (λ s, isdigit s && (negb (all_decimal s) || too_long s)) data = true
          ↔ ∃ token, token ∈ data ∧ isdigit token = true ∧
                     (all_decimal token = false ∨ too_long token = true))
    as <-.
  { rewrite existsb_elem_of. split; intros (s & Hs & H); exists s; split; auto.
    - apply andb_true_iff in H as [? [?%negb_true_iff|?]%orb_true_iff]; auto.
    - destruct H as [-> [-> | ->]]; [done|]. by rewrite orb_true_r. }
  destruct (existsb _ data); (split; [done|split]); try done.
  - by intros e [= <-].
  - by intros out [= <-].
Qed.

(** The cap at work: a token of 4301 digits [1] is not converted. *)
Example lst_to_ints_long :
  let token := string_of_list_ascii (repeat "1"%char 4301) in
  isdigit token = true ∧ all_decimal token = true ∧
  lst_to_ints [token] = Raise ValueError.
Proof. vm_compute. auto. Qed.

Lemma decimal_from_nonneg (s : string) (acc : Z) :
  forall_chars is_decimal s = true → 0 ≤ acc → 0 ≤ decimal_from acc s.
Proof.
  revert acc. induction s as [|c s IH]; [done|]. simpl.
  intros acc [Hc Hs]%andb_true_iff Hacc. apply IH; [done|].
  unfold is_decimal in Hc. apply andb_true_iff in Hc as [Hc%N.leb_le _].
  unfold digit_value. lia.
Qed.

(** Whatever [lst_to_ints] returns is a list of non-negative ints, no
    longer than the input: a token with a sign is never converted. *)
Theorem lst_to_ints_nonneg (data : list string) (out : list Z) :
  lst_to_ints data = Ok out →
  Forall (λ n, 0 ≤ n) out ∧ (length out ≤ length data)%nat.
Proof.
  rewrite lst_to_ints_outcome_cases. destruct (existsb _ data); [done|].
  intros [= <-]. split.
  - apply Forall_fmap, Forall_forall. intros s [Hs _]%list_elem_of_filter.
    simpl. unfold decimal. apply decimal_from_nonneg; [|done].
    by destruct s.
  - rewrite length_fmap. apply length_filter.
Qed.

Lemma lst_to_ints_nonneg_witness :
  Forall (λ n, 0 ≤ n) [12; 7] ∧ (length [12; 7] ≤ length ["12"; "-3"; "007"])%nat.
Proof.
  apply (lst_to_ints_nonneg ["12"; "-3"; "007"] [12; 7]). reflexivity.
Defined.

Lemma ascii_isdigit (c : ascii) :
  (code c <? 128)%N = true → char_isdigit c = is_decimal c.
Proof.
  destruct c as [[] [] [] [] [] [] [] []]; vm_compute; intros; try done.
Qed.

(** On ASCII tokens of at most 4300 characters [lst_to_ints] never
    raises: it returns the values of the tokens made of decimal digits
    and drops every other token. *)
Theorem lst_to_ints_ascii (data : list string) :
  Forall (λ s, forall_chars (λ c, (code c <? 128)%N) s = true) data →
  Forall (λ s, too_long s = false) data →
  lst_to_ints data = Ok (decimal <$> filter (λ s, all_decimal s = true) data).
Proof.
  intros Hdata Hlen. apply lst_to_ints_decimal.
  rewrite Forall_forall in Hdata, Hlen. apply Forall_forall. intros s Hin.
  specialize (Hdata s Hin). specialize (Hlen s Hin). simpl in *. split.
  - clear Hlen Hin. destruct s as [|c s]; [done|]. unfold isdigit, all_decimal.
    generalize dependent (String c s). clear. intros s.
    induction s as [|c s IH]; [done|]. simpl.
    intros [Hc Hs]%andb_true_iff. by rewrite (ascii_isdigit c Hc), (IH Hs).
  - done.
Qed.

Lemma lst_to_ints_ascii_witness :
  lst_to_ints ["1"; "2"; "three"; "4"; "5five"]
  = Ok (decimal <$> filter (λ s, all_decimal s = true) ["1"; "2"; "three"; "4"; "5five"]).
Proof.
  apply (lst_to_ints_ascii ["1"; "2"; "three"; "4"; "5five"]).
  - repeat constructor.
  - repeat constructor.
Defined.
End ToIntsOutcome.

(** ** Clipping: values in range, and NaN thresholds *)

Section ClipMore.
Import NumFacts.

(** With [lo <= hi], clipping a number gives [lo] below [lo], [hi] above
    [hi], and the number itself (the very same object) in between. *)
Theorem clip_cases (lo hi x : number) :
  proper x → py_le lo hi = true →
  clip lo hi x = if py_lt x lo then lo else if py_lt hi x then hi else x.
Proof.
  intros Hx Hle. unfold clip, max2, min2. simpl.
  destruct (py_lt x lo) eqn:E1.
  - assert (py_lt hi x = false) as ->; [|by rewrite E1].
    apply py_le_lt_false. eapply py_le_trans; [|exact Hle]. by apply py_lt_le.
  - destruct (py_lt hi x) eqn:E2; [|by rewrite E1].
    by rewrite (py_le_lt_false _ _ Hle).
Qed.

Lemma clip_cases_witness :
  clip (PInt 5) (PInt 15) (PInt 20)
  = if py_lt (PInt 20) (PInt 5) then PInt 5
    else if py_lt (PInt 15) (PInt 20) then PInt 15 else PInt 20.
Proof. apply (clip_cases (PInt 5) (PInt 15) (PInt 20)); reflexivity. Defined.

(** A list whose elements all lie within the thresholds is returned
    unchanged. *)
Theorem clip_values_in_range (data : list number) (lo hi : number) :
  Forall (within lo hi) data → clip_values data lo hi = data.
Proof.
  intros Hdata. unfold clip_values.
  induction Hdata as [|x data [Hlo Hhi] _ IH]; [done|]. csimpl. rewrite IH. f_equal.
  unfold clip, max2, min2. simpl.
  by rewrite (py_le_lt_false _ _ Hhi), (py_le_lt_false _ _ Hlo).
Qed.

Lemma clip_values_in_range_witness :
  clip_values [PInt 2; PFloat (S754_zero false); PInt 3] (PInt 0) (PInt 3)
  = [PInt 2; PFloat (S754_zero false); PInt 3].
Proof.
  apply (clip_values_in_range [PInt 2; PFloat (S754_zero false); PInt 3] (PInt 0) (PInt 3)).
  repeat constructor.
Defined.

Lemma py_lt_nan_l (x y : number) : is_nan x = true → py_lt x y = false.
Proof. by destruct x as [|[]]. Qed.

Lemma py_lt_nan_r (x y : number) : is_nan y = true → py_lt x y = false.
Proof. destruct y as [|[]]; try done. intros _. unfold py_lt. by destruct (exact x). Qed.

(** A NaN threshold clips nothing: with a NaN upper threshold only the
    lower one acts, with a NaN lower threshold only the upper one, and
    with both the list is returned unchanged. *)
Theorem clip_values_nan_threshold (data : list number) (lo hi : number) :
  (is_nan hi = true → clip_values data lo hi = (λ x, max2 x lo) <$> data) ∧
  (is_nan lo = true → clip_values data lo hi = (λ x, min2 x hi) <$> data) ∧
  (is_nan lo = true → is_nan hi = true → clip_values data lo hi = data).
Proof.
  unfold clip_values. repeat split.
  - intros Hhi. apply list_fmap_ext. intros _ x _.
    unfold clip, min2. simpl. by rewrite (py_lt_nan_l hi x Hhi).
  - intros Hlo. apply list_fmap_ext. intros _ x _.
    unfold clip, max2. simpl. by rewrite (py_lt_nan_r _ lo Hlo).
  - intros Hlo Hhi. rewrite <- (list_fmap_id data) at 2.
    apply list_fmap_ext. intros _ x _.
    unfold clip, max2, min2. simpl.
    by rewrite (py_lt_nan_l hi x Hhi), (py_lt_nan_r x lo Hlo).
Qed.

Lemma clip_values_nan_threshold_witness :
  clip_values [PInt 7; PInt (-7)] (PFloat S754_nan) (PFloat S754_nan) = [PInt 7; PInt (-7)].
Proof.
  apply (clip_values_nan_threshold [PInt 7; PInt (-7)] (PFloat S754_nan) (PFloat S754_nan));
    reflexivity.
Defined.
End ClipMore.

(** ** The normalisers keep the length *)

Section Lengths.
Context {A : Type} `{PyNumber A}.

Lemma comprehension_length {B C} (f : B → outcome C) (l : list B) (out : list C) :
  comprehension f l = Ok out → length out = length l.
Proof.
  revert out. induction l as [|x l IH]; intros out; simpl.
  - by intros [= <-].
  - destruct (f x) as [y|]; [|done]. simpl.
    destruct (comprehension f l) as [ys|]; [|done]. simpl.
    intros [= <-]. simpl. by rewrite (IH ys).
Qed.

(** In every arithmetic, whenever [minmax_normalize] or
    [z_score_standardize] returns, the result has the length of the
    input. *)
Theorem normalizers_keep_length (data out : list A) (min_val max_val : A) :
  (minmax_normalize data min_val max_val = Ok out → length out = length data) ∧
  (z_score_standardize data = Ok out → length out = length data).
Proof.
  assert (length (zeros data) = length data) as Hz by apply length_map.
  split.
  - unfold minmax_normalize. destruct data as [|x rest]; [by intros [= <-]|].
    destruct (py_min (x :: rest)) as [m|]; [|done].
    destruct (py_max (x :: rest)) as [M|]; [|done].
    unfold mbind at 1 2, outcome_bind. destruct (n_eq _ _).
    + by intros [= <-].
    + apply comprehension_length.
  - unfold z_score_standardize. destruct data as [|x rest]; [by intros [= <-]|].
    destruct (py_sum (x :: rest)) as [total|]; [|done].
    unfold mbind at 1, outcome_bind at 1.
    destruct (n_truediv total _) as [mean|]; [|done].
    unfold mbind at 1, outcome_bind at 1.
    destruct (sum_from _ _ (x :: rest)) as [squares|]; [|done].
    unfold mbind at 1, outcome_bind at 1.
    destruct (n_truediv squares _) as [variance|]; [|done].
    unfold mbind at 1, outcome_bind at 1.
    destruct (n_pow variance Half) as [std|]; [|done].
    unfold mbind at 1, outcome_bind at 1.
    destruct (n_eq _ _).
    + by intros [= <-].
    + apply comprehension_length.
Qed.
End Lengths.

Lemma normalizers_keep_length_witness :
  length (PFloat <$> [ S754_zero false;
                       S754_finite false 4503599627370496 (-54);
                       S754_finite false 4503599627370496 (-53);
                       S754_finite false 6755399441055744 (-53);
                       S754_finite false 4503599627370496 (-52) ])
  = length (PInt <$> [1; 2; 3; 4; 5]).
Proof.
  refine (proj1 (normalizers_keep_length (PInt <$> [1; 2; 3; 4; 5]) _ (PInt 0) (PInt 1)) _).
  vm_compute. reflexivity.
Defined.

(** ** Flattening *)

Section Flatten.
Context {A : Type}.

Lemma append_items (flattened sublist : list A) :
  foldl (λ flattened item, flattened ++ [item]) flattened sublist = flattened ++ sublist.
Proof.
  revert flattened. induction sublist as [|x sublist IH]; intros flattened; simpl.
  - by rewrite app_nil_r.
  - by rewrite IH, <- app_assoc.
Qed.

Lemma flatten_from (flattened : list A) (nested : list (list A)) :
  foldl (λ flattened sublist, foldl (λ flattened item, flattened ++ [item]) flattened sublist)
        flattened nested
  = flattened ++ concat nested.
Proof.
  revert flattened. induction nested as [|sublist nested IH]; intros flattened; simpl.
  - by rewrite app_nil_r.
  - by rewrite IH, append_items, <- app_assoc.
Qed.

Lemma lst_flatten_concat (nested : list (list A)) : lst_flatten nested = concat nested.
Proof. unfold lst_flatten. by rewrite flatten_from. Qed.

(** Flattening keeps every item and the order: it turns an append of
    nested lists into an append, undoes the wrapping of each item in a
    one-element list, and its length is the sum of the lengths. *)
Theorem lst_flatten_structure (nested1 nested2 : list (list A)) (items : list A) :
  lst_flatten (nested1 ++ nested2) = lst_flatten nested1 ++ lst_flatten nested2 ∧
  lst_flatten ((λ item, [item]) <$> items) = items ∧
  length (lst_flatten nested1) = sum_list (length <$> nested1).
Proof.
  rewrite !lst_flatten_concat. split; [apply concat_app|]. split.
  - induction items as [|x items IH]; [done|]. csimpl. by rewrite IH.
  - induction nested1 as [|sublist nested IH]; [done|].
    csimpl. by rewrite length_app, IH.
Qed.

(** Only one level is removed: an item is in the result exactly when it is
    an item of one of the sublists, so a list nested deeper stays an
    item. *)
Theorem lst_flatten_elem_of (nested : list (list A)) (item : A) :
  item ∈ lst_flatten nested ↔ ∃ sublist, sublist ∈ nested ∧ item ∈ sublist.
Proof.
  rewrite lst_flatten_concat. induction nested as [|sublist nested IH]; simpl.
  - split; [by intros ?%elem_of_nil|]. by intros (? & ?%elem_of_nil & _).
  - rewrite elem_of_app, IH. split.
    + intros [?|(s & ? & ?)]; [exists sublist|exists s]; split; auto; by constructor.
    + intros (s & [->|?]%elem_of_cons & ?); [by left|right; eauto].
Qed.
End Flatten.

(** A list inside a sublist stays one item. *)
Example lst_flatten_one_level :
  lst_flatten [[VList [VNum (PInt 1); VNum (PInt 2)]]; [VNum (PInt 3)]]
  = [VList [VNum (PInt 1); VNum (PInt 2)]; VNum (PInt 3)].
Proof. reflexivity. Qed.

(** ** Removal of duplicates *)

Section DuplicatesFacts.
Context `{Countable A}.
Variable set_order : gset A → list A.

(** What the language promises about iterating over a set: every member
    comes once. *)
Hypothesis set_order_NoDup : ∀ s, NoDup (set_order s).
Hypothesis set_order_elem_of : ∀ s x, x ∈ set_order s ↔ x ∈ s.

Lemma remove_duplicates_elem_of (data : list A) (x : A) :
  x ∈ remove_duplicates set_order data ↔ x ∈ data.
Proof. unfold remove_duplicates. by rewrite set_order_elem_of, elem_of_list_to_set. Qed.

(** The result has no duplicates, has exactly the elements of the input,
    and is no longer than the input. *)
Theorem remove_duplicates_spec (data : list A) :
  NoDup (remove_duplicates set_order data) ∧
  (∀ x, x ∈ remove_duplicates set_order data ↔ x ∈ data) ∧
  (length (remove_duplicates set_order data) ≤ length data)%nat.
Proof.
  split; [apply set_order_NoDup|]. split; [apply remove_duplicates_elem_of|].
  apply submseteq_length, NoDup_submseteq; [apply set_order_NoDup|].
  intros x. by rewrite remove_duplicates_elem_of.
Qed.

(** Up to the order, the result depends on the set of elements only: two
    inputs with the same elements give permutations of one another, an
    input without duplicates is only permuted, and removing duplicates
    twice changes nothing more. *)
Theorem remove_duplicates_permutation (data data' : list A) :
  ((∀ x, x ∈ data ↔ x ∈ data') →
   remove_duplicates set_order data ≡ₚ remove_duplicates set_order data') ∧
  (NoDup data → remove_duplicates set_order data ≡ₚ data) ∧
  remove_duplicates set_order (remove_duplicates set_order data)
  ≡ₚ remove_duplicates set_order data.
Proof.
  split; [|split].
  - intros Hsame. apply NoDup_Permutation; try apply set_order_NoDup.
    intros x. by rewrite !remove_duplicates_elem_of.
  - intros Hnd. apply NoDup_Permutation; [apply set_order_NoDup|done|].
    apply remove_duplicates_elem_of.
  - apply NoDup_Permutation; try apply set_order_NoDup.
    intros x. by rewrite !remove_duplicates_elem_of.
Qed.
End DuplicatesFacts.

Lemma remove_duplicates_spec_witness :
  NoDup (remove_duplicates elements [1; 2; 2; 3; 1; 4]) ∧
  (∀ x, x ∈ remove_duplicates elements [1; 2; 2; 3; 1; 4] ↔ x ∈ [1; 2; 2; 3; 1; 4]) ∧
  (length (remove_duplicates elements [1; 2; 2; 3; 1; 4]) ≤ length [1; 2; 2; 3; 1; 4])%nat.
Proof.
  exact (remove_duplicates_spec (A := Z) elements
           (λ s, NoDup_elements s) (λ s x, elem_of_elements s x) [1; 2; 2; 3; 1; 4]).
Defined.

Lemma remove_duplicates_permutation_witness :
  remove_duplicates elements [3; 1; 2] ≡ₚ [3; 1; 2].
Proof.
  refine (proj1 (proj2 (remove_duplicates_permutation (A := Z) elements
           (λ s, NoDup_elements s) (λ s x, elem_of_elements s x) [3; 1; 2] [])) _).
  apply (bool_decide_unpack _). reflexivity.
Defined.

(** The run of the test suite, once sorted. *)
Example remove_duplicates_run :
  sorted Z.le (remove_duplicates elements [1; 2; 2; 3; 1; 4]) = [1; 2; 3; 4].
Proof. vm_compute. reflexivity. Qed.

(** ** Logarithms *)

Section LogFacts.
Variable ln : number → number.

Lemma math_log_positive (x : number) :
  py_lt (PInt 0) x = true → math_log ln x = Ok (ln x).
Proof.
  intros Hx. unfold math_log. rewrite Hx.
  apply NumFacts.py_lt_le, NumFacts.py_le_not_nan in Hx as [_ ->]. done.
Qed.

(** [log_transform] never raises: [math.log] is only reached with an
    argument above zero, where it has no domain error.  The result is the
    logarithms of the elements above zero, in their order; zero, negative
    numbers and NaN are dropped, so the result has the length of the input
    exactly when every element is above zero. *)
Theorem log_transform_total (data : list number) :
  log_transform ln data = Ok (ln <$> filter (λ x, py_lt (PInt 0) x = true) data) ∧
  (length (filter (λ x, py_lt (PInt 0) x = true) data) = length data
   ↔ Forall (λ x, py_lt (PInt 0) x = true) data).
Proof.
  split.
  - induction data as [|x data IH]; [done|]. simpl. rewrite IH.
    destruct (py_lt (PInt 0) x) eqn:Hx.
    + rewrite (math_log_positive x Hx). by rewrite filter_cons_True.
    + rewrite filter_cons_False; [done|]. by rewrite Hx.
  - induction data as [|x data IH]; [done|].
    rewrite filter_cons. destruct (decide (py_lt (PInt 0) x = true)) as [Hx|Hx].
    + simpl. rewrite Forall_cons. split.
      * intros [= Hlen]. split; [done|]. by apply IH.
      * intros [_ Hall]. f_equal. by apply IH.
    + split.
      * intros Hlen. pose proof (length_filter (λ x, py_lt (PInt 0) x = true) data).
        simpl in Hlen. lia.
      * intros [? _]%Forall_cons. done.
Qed.
End LogFacts.

(** ** Shuffling: the edge cases *)

Section ShuffleEdge.
Context {A G : Type}.
Variable randbelow : G → nat → nat * G.
Variable seed_state : Z → G.

(** A list of at most one element is returned as it is, and no number is
    drawn: without a seed the generator is left in its state. *)
Theorem lst_shuffle_short (data : list A) (seed : option Z) (g : G) :
  (length data ≤ 1)%nat →
  lst_shuffle randbelow seed_state data seed g
  = Ok (data, match seed with Some s => seed_state s | None => g end).
Proof.
  intros Hlen. unfold lst_shuffle, random_shuffle.
  by replace (length data - 1)%nat with 0%nat by lia.
Qed.

Lemma swap_same (x : list A) (i : nat) : (i < length x)%nat → swap x i i = Ok x.
Proof.
  intros [xi Hi]%lookup_lt_is_Some_2. unfold swap. rewrite Hi.
  by rewrite (list_insert_id x i xi Hi), (list_insert_id x i xi Hi).
Qed.

(** The shuffle may return the list in its original order: it does so
    whenever every draw is the top of its range. *)
Theorem lst_shuffle_unchanged (data : list A) (seed : option Z) (g : G) :
  (∀ g n, (randbelow g n).1 = (n - 1)%nat) →
  ∃ g', lst_shuffle randbelow seed_state data seed g = Ok (data, g').
Proof.
  intros Htop. unfold lst_shuffle, random_shuffle.
  generalize (match seed with Some s => seed_state s | None => g end). clear g.
  assert (∀ i g, (i < length data ∨ i = 0)%nat →
                 ∃ g', shuffle_from randbelow i data g = Ok (data, g')) as Hloop.
  { induction i as [|i IH]; intros g Hi; simpl; [by exists g|].
    destruct Hi as [Hi|]; [|done].
    pose proof (Htop g (S (S i))) as Hj.
    destruct (randbelow g (S (S i))) as [j g1]. simpl in Hj. subst j.
    replace (S (S i) - 1)%nat with (S i) by lia.
    rewrite swap_same by done. simpl. apply IH. lia. }
  intros g. apply Hloop. lia.
Qed.
End ShuffleEdge.

Lemma lst_shuffle_short_witness :
  lst_shuffle lcg_randbelow lcg_seed [7] None 5 = Ok ([7], 5).
Proof. apply (lst_shuffle_short lcg_randbelow lcg_seed [7] None 5). simpl. lia. Defined.

Lemma lst_shuffle_unchanged_witness :
  ∃ g', lst_shuffle (λ (g : Z) n, ((n - 1)%nat, g)) lcg_seed [1; 2; 3; 4; 5] None 0
        = Ok ([1; 2; 3; 4; 5], g').
Proof.
  apply (lst_shuffle_unchanged (λ (g : Z) n, ((n - 1)%nat, g)) lcg_seed [1; 2; 3; 4; 5] None 0).
  reflexivity.
Defined.

(** ** Runs of characters between separators *)

Section Runs.
Import Str.
Local Arguments append !_ _ / : simpl nomatch.
Variable sep : ascii → bool.

Lemma append_empty_r (s : string) : s +:+ EmptyString = s.
Proof. induction s; simpl; congruence. Qed.

Lemma append_assoc (s1 s2 s3 : string) : (s1 +:+ s2) +:+ s3 = s1 +:+ s2 +:+ s3.
Proof. induction s1; simpl; congruence. Qed.

Lemma length_append (s1 s2 : string) :
  String.length (s1 +:+ s2) = (String.length s1 + String.length s2)%nat.
Proof. induction s1; simpl; congruence. Qed.

Lemma forall_chars_append (p : ascii → bool) (s1 s2 : string) :
  forall_chars p (s1 +:+ s2) = forall_chars p s1 && forall_chars p s2.
Proof. induction s1 as [|c s1 IH]; simpl; [done|]. by rewrite IH, andb_assoc. Qed.

Lemma solid_snoc (w : string) (c : ascii) :
  (w = EmptyString ∨ solid sep w) → sep c = false →
  solid sep (w +:+ String c EmptyString).
Proof.
  intros Hw Hc. split; [by destruct w|].
  rewrite forall_chars_append. simpl. rewrite Hc. simpl.
  destruct Hw as [->|[_ ->]]; done.
Qed.

Lemma runs_from_solid (text run : string) :
  (run = EmptyString ∨ solid sep run) → Forall (solid sep) (runs_from sep run text).
Proof.
  revert run. induction text as [|c text IH]; intros run Hrun; simpl.
  - destruct Hrun as [->|Hrun]; [done|]. destruct run; [by destruct Hrun|]. by constructor.
  - destruct (sep c) eqn:Hc.
    + destruct Hrun as [->|Hrun]; [by apply IH; left|].
      destruct run; [by destruct Hrun|]. constructor; [done|]. by apply IH; left.
    + apply IH. right. by apply solid_snoc.
Qed.

(** The pieces are made of characters of the text. *)
Lemma runs_from_chars (p : ascii → bool) (text run : string) :
  forall_chars p run = true → forall_chars p text = true →
  Forall (λ piece, forall_chars p piece = true) (runs_from sep run text).
Proof.
  revert run. induction text as [|c text IH]; intros run Hrun Htext; simpl in *.
  - destruct run; by repeat constructor.
  - apply andb_true_iff in Htext as [Hc Htext]. destruct (sep c).
    + destruct run; [by apply IH|]. constructor; [done|]. by apply IH.
    + apply IH; [|done]. rewrite forall_chars_append. simpl. by rewrite Hrun, Hc.
Qed.

Lemma runs_from_run (w run text : string) :
  forall_chars (λ c, negb (sep c)) w = true →
  runs_from sep run (w +:+ text) = runs_from sep (run +:+ w) text.
Proof.
  revert run. induction w as [|c w IH]; intros run Hw; simpl in *.
  - by rewrite append_empty_r.
  - apply andb_true_iff in Hw as [Hc Hw]. apply negb_true_iff in Hc.
    rewrite Hc, (IH _ Hw). f_equal.
    by rewrite append_assoc.
Qed.

(** A piece followed by a separator, or by the end, is the first run. *)
Lemma runs_piece (piece rest : string) :
  solid sep piece →
  match rest with EmptyString => True | String c _ => sep c = true end →
  runs sep (piece +:+ rest) = piece :: runs sep rest.
Proof.
  intros [Hne Hpiece] Hrest. unfold runs.
  rewrite (runs_from_run piece EmptyString rest Hpiece). simpl.
  destruct rest as [|c rest]; simpl.
  - by destruct piece.
  - rewrite Hrest. by destruct piece.
Qed.

Lemma runs_gap (gap text : string) :
  forall_chars sep gap = true → runs sep (gap +:+ text) = runs sep text.
Proof.
  unfold runs. induction gap as [|c gap IH]; simpl; [done|].
  intros [-> Hgap]%andb_true_iff. by apply IH.
Qed.

(** Whatever is delimited in the text is what [runs] finds: the
    description determines the pieces. *)
Lemma delimited_runs (text : string) (pieces : list string) :
  delimited sep text pieces → runs sep text = pieces.
Proof.
  induction 1 as [gap Hgap|gap piece rest pieces Hgap Hpiece Hrest _ IH].
  - rewrite <- (append_empty_r gap). by rewrite runs_gap.
  - rewrite (runs_gap _ _ Hgap), (runs_piece _ _ Hpiece Hrest). by rewrite IH.
Qed.

Lemma delimited_gap_cons (c : ascii) (text : string) (pieces : list string) :
  sep c = true → delimited sep text pieces → delimited sep (String c text) pieces.
Proof.
  intros Hc [gap Hgap|gap piece rest pieces' Hgap Hpiece Hrest Htail].
  - apply delimited_end. simpl. by rewrite Hc.
  - apply (delimited_piece sep (String c gap) piece rest pieces'); auto.
    simpl. by rewrite Hc.
Qed.

Lemma runs_from_delimited (text : string) :
  delimited sep text (runs_from sep EmptyString text) ∧
  ∀ run, solid sep run → delimited sep (run +:+ text) (runs_from sep run text).
Proof.
  induction text as [|c text [IH0 IHrun]].
  - split; [by apply delimited_end|].
    intros run Hrun. simpl. destruct run as [|d run]; [by destruct Hrun|].
    apply (delimited_piece sep EmptyString (String d run) EmptyString []); try done.
    by apply delimited_end.
  - simpl. destruct (sep c) eqn:Hc.
    + split; [by apply delimited_gap_cons|].
      intros run Hrun. destruct run as [|d run]; [by destruct Hrun|].
      apply (delimited_piece sep EmptyString (String d run) (String c text)); try done.
      by apply delimited_gap_cons.
    + split.
      * apply (IHrun (String c EmptyString)). apply (solid_snoc EmptyString); auto.
      * intros run Hrun. rewrite <- app_assoc_char. apply IHrun.
        apply solid_snoc; auto.
Qed.

Lemma runs_delimited (text : string) : delimited sep text (runs sep text).
Proof. apply runs_from_delimited. Qed.

(** Pieces joined by single spaces are found again, when the space is a
    separator. *)
Lemma runs_join (pieces : list string) :
  sep " "%char = true → Forall (solid sep) pieces →
  runs sep (join " " pieces) = pieces.
Proof.
  intros Hsp. induction 1 as [|piece rest Hpiece Hrest IH]; [done|].
  destruct rest as [|piece' rest].
  - simpl. rewrite <- (append_empty_r piece) at 1. by rewrite runs_piece.
  - change (join " " (piece :: piece' :: rest))
      with (piece +:+ String " " (join " " (piece' :: rest))).
    rewrite (runs_piece piece (String " " (join " " (piece' :: rest))) Hpiece Hsp). f_equal.
    etransitivity; [|exact IH].
    apply (runs_gap (String " " EmptyString)). simpl. by rewrite Hsp.
Qed.
End Runs.

Lemma split_from_runs (run text : string) :
  Str.split_from run text = runs_from Str.char_isspace run text.
Proof.
  revert run. induction text as [|c text IH]; intros run; simpl; [done|].
  by rewrite !IH.
Qed.

(** [text.split()] gives the runs between whitespace. *)
Lemma split_runs (text : string) : Str.split text = runs Str.char_isspace text.
Proof. apply split_from_runs. Qed.

(** ** Tokenization *)

Section Tokenization.
Import Str Re.
Local Arguments append !_ _ / : simpl nomatch.

(** What [\w+\b] matches at the head of a text: the longest run of word
    characters, which is not empty; nothing when the text does not start
    with a word character. *)
Lemma word_plus_spec (s : string) :
  if starts_with_word s then
    ∃ w rest, word_plus s = Some (w, rest) ∧ s = w +:+ rest ∧
              solid non_word w ∧ starts_with_word rest = false
  else word_plus s = None.
Proof.
  induction s as [|c s IH]; [done|]. simpl.
  destruct (is_word c) eqn:Hc; [|done].
  assert (non_word c = false) as Hc' by (unfold non_word; by rewrite Hc).
  destruct (starts_with_word s) eqn:Hs.
  - destruct IH as (w & rest & -> & -> & [_ Hw] & Hrest).
    exists (String c w), rest. repeat split; auto.
    simpl. by rewrite Hc', Hw.
  - rewrite IH.
    exists (String c EmptyString), s. repeat split; auto.
    simpl. by rewrite Hc'.
Qed.

Lemma starts_with_word_boundary (rest : string) :
  starts_with_word rest = false →
  match rest with EmptyString => True | String c _ => non_word c = true end.
Proof. destruct rest as [|c rest]; [done|]. simpl. unfold non_word. by intros ->. Qed.

(** The scan finds the maximal runs of word characters. *)
Lemma findall_from_runs (fuel : nat) (prev : bool) (s : string) :
  (String.length s < fuel)%nat →
  (prev = true → starts_with_word s = false) →
  findall_from fuel prev s = runs non_word s.
Proof.
  revert prev s. induction fuel as [|fuel IH]; intros prev s Hlen Hprev; [lia|].
  simpl. unfold match_at, boundary.
  pose proof (word_plus_spec s) as Hw.
  destruct (starts_with_word s) eqn:Hs.
  - destruct Hw as (w & rest & -> & -> & Hsolid & Hrest).
    assert (prev = false) as -> by (destruct prev; [by specialize (Hprev eq_refl)|done]).
    simpl. rewrite length_append in Hlen.
    rewrite (runs_piece non_word w rest Hsolid (starts_with_word_boundary _ Hrest)).
    f_equal. apply IH; [|done].
    destruct Hsolid as [Hne _]. destruct w; [done|]. simpl in Hlen. lia.
  - rewrite Hw. rewrite xorb_false_r.
    assert (match_none : (if prev then None else None) = (None : option (string * string)))
      by (by destruct prev).
    rewrite match_none. destruct s as [|c s]; [done|].
    simpl in Hs, Hlen. unfold runs. simpl.
    assert (non_word c = true) as -> by (unfold non_word; by rewrite Hs).
    apply IH; [lia|]. by rewrite Hs.
Qed.

Lemma findall_words_runs (s : string) : findall_words s = runs non_word s.
Proof. apply findall_from_runs; [lia|done]. Qed.

Lemma char_lower_idempotent (c : ascii) : char_lower (char_lower c) = char_lower c.
Proof. destruct c as [[] [] [] [] [] [] [] []]; vm_compute; reflexivity. Qed.

Lemma lower_idempotent (s : string) : lower (lower s) = lower s.
Proof.
  unfold lower. induction s as [|c s IH]; [done|]. simpl.
  by rewrite char_lower_idempotent, IH.
Qed.

Lemma lower_fixed (s : string) :
  forall_chars (λ c, bool_decide (char_lower c = c)) s = true ↔ lower s = s.
Proof.
  unfold lower. induction s as [|c s IH]; [done|]. simpl.
  rewrite andb_true_iff, bool_decide_eq_true, IH. split.
  - intros [-> ->]. done.
  - intros [= -> ->]. done.
Qed.

Lemma lower_append (s1 s2 : string) : lower (s1 +:+ s2) = lower s1 +:+ lower s2.
Proof. unfold lower. induction s1 as [|c s1 IH]; simpl; [done|]. by rewrite IH. Qed.

Lemma lower_join (tokens : list string) :
  Forall (λ t, lower t = t) tokens → lower (join " " tokens) = join " " tokens.
Proof.
  induction 1 as [|t rest Ht _ IH]; [done|].
  destruct rest as [|t' rest]; [done|].
  change (join " " (t :: t' :: rest)) with (t +:+ " " +:+ join " " (t' :: rest)).
  by rewrite !lower_append, Ht, IH.
Qed.

Lemma special_tokenization_tokens (text : string) :
  Forall (λ token, solid non_word token ∧ lower token = token)
         (special_tokenization text).
Proof.
  unfold special_tokenization. rewrite findall_words_runs.
  apply Forall_and. split; [by apply runs_from_solid; left|].
  eapply Forall_impl.
  - apply (runs_from_chars non_word (λ c, bool_decide (char_lower c = c))); [done|].
    apply lower_fixed, lower_idempotent.
  - intros token. apply lower_fixed.
Qed.

(** The tokens are exactly the maximal runs of word characters of the
    lowercased text, in their order: each one is a non-empty string of
    word characters, delimited by other characters or by the ends of the
    text, and is in lower case. *)
Theorem special_tokenization_runs (text : string) :
  special_tokenization text = runs non_word (lower text) ∧
  delimited non_word (lower text) (special_tokenization text) ∧
  Forall (λ token, solid non_word token ∧ lower token = token)
         (special_tokenization text).
Proof.
  assert (special_tokenization text = runs non_word (lower text)) as E
    by apply findall_words_runs.
  split; [exact E|]. split.
  - rewrite E. apply runs_delimited.
  - apply special_tokenization_tokens.
Qed.

(** Case is ignored, and tokens joined by single spaces are found again:
    tokenizing is a retraction of joining. *)
Theorem special_tokenization_join (text : string) (tokens : list string) :
  special_tokenization (lower text) = special_tokenization text ∧
  (Forall (λ token, solid non_word token ∧ lower token = token) tokens →
   special_tokenization (join " " tokens) = tokens) ∧
  special_tokenization (join " " (special_tokenization text))
  = special_tokenization text.
Proof.
  assert (∀ toks, Forall (λ token, solid non_word token ∧ lower token = token) toks →
                  special_tokenization (join " " toks) = toks) as Hjoin.
  { intros toks [Hsolid Hlower]%Forall_and.
    unfold special_tokenization.
    rewrite findall_words_runs, (lower_join _ Hlower). by apply runs_join. }
  split; [|split].
  - unfold special_tokenization. by rewrite lower_idempotent.
  - apply Hjoin.
  - apply Hjoin, special_tokenization_tokens.
Qed.

Lemma special_tokenization_join_witness :
  special_tokenization (join " " ["hello"; "world_2"]) = ["hello"; "world_2"].
Proof.
  refine (proj1 (proj2 (special_tokenization_join "" ["hello"; "world_2"])) _).
  repeat (apply Forall_cons; split; [by repeat split|]). constructor.
Defined.

(** The docstring example. *)
Example special_tokenization_doc :
  special_tokenization "Hello, World! This is a test."
  = ["hello"; "world"; "this"; "is"; "a"; "test"].
Proof. vm_compute. reflexivity. Qed.
End Tokenization.

(** ** Cleaning of text *)

Section CleanText.
Import Str Re.
Local Arguments append !_ _ / : simpl nomatch.

Lemma lstrip_collapse (text : string) :
  lstrip (collapse_from true text) = collapse_from true text ∧
  lstrip (collapse_from false text) = collapse_from true text.
Proof.
  induction text as [|c text [IH _]]; [done|]. simpl.
  destruct (char_isspace c) eqn:Hc; simpl; rewrite ?Hc; auto.
Qed.

Lemma rstrip_cons (c : ascii) (s : string) :
  char_isspace c = false → rstrip (String c s) = String c (rstrip s).
Proof. intros Hc. simpl. rewrite Hc. by destruct (rstrip s). Qed.

Lemma rstrip_space_cons (c : ascii) (s : string) :
  char_isspace c = true →
  rstrip (String c s)
  = match rstrip s with EmptyString => EmptyString | s' => String c s' end.
Proof. intros Hc. simpl. by rewrite Hc. Qed.

Lemma collapse_gap (gap text : string) :
  blank gap → collapse_from true (gap +:+ text) = collapse_from true text.
Proof.
  unfold blank. induction gap as [|c gap IH]; simpl; [done|].
  intros [-> Hgap]%andb_true_iff. by apply IH.
Qed.

Lemma collapse_word (b : bool) (w text : string) :
  word w → collapse_from b (w +:+ text) = w +:+ collapse_from false text.
Proof.
  intros [Hne Hw]. revert b. induction w as [|c w IH]; intros b; [done|].
  simpl in *. apply andb_true_iff in Hw as [Hc Hw]. apply negb_true_iff in Hc.
  rewrite Hc. f_equal. destruct w as [|d w]; [done|]. by apply IH.
Qed.

Lemma rstrip_word (w s : string) :
  forall_chars (λ c, negb (char_isspace c)) w = true →
  rstrip (w +:+ s) = w +:+ rstrip s.
Proof.
  induction w as [|c w IH]; [done|]. simpl append.
  intros [Hc Hw]%andb_true_iff. apply negb_true_iff in Hc.
  by rewrite (rstrip_cons c _ Hc), (IH Hw).
Qed.

Lemma join_empty (words : list string) :
  Forall word words → join " " words = EmptyString → words = [].
Proof.
  intros Hwords. destruct Hwords as [|w rest [Hne _] _]; [done|].
  destruct rest; simpl; [done|]. by destruct w.
Qed.

(** Collapsing the whitespace leaves the words, single spaces between
    them, and at most one space at either end. *)
Lemma rstrip_collapse (text : string) (words : list string) :
  splits_as text words → rstrip (collapse_from true text) = join " " words.
Proof.
  induction 1 as [gap Hgap|gap w rest words Hgap Hw Hrest Hsplit IH].
  - rewrite <- (append_empty_r gap). by rewrite collapse_gap.
  - rewrite (collapse_gap _ _ Hgap), (collapse_word _ _ _ Hw).
    destruct Hw as [Hne Hw]. rewrite (rstrip_word _ _ Hw).
    pose proof (splits_as_words _ _ Hsplit) as Hwords.
    destruct rest as [|c rest].
    + simpl in IH. symmetry in IH. apply (join_empty _ Hwords) in IH as ->.
      simpl. apply append_empty_r.
    + simpl in Hrest. simpl collapse_from in *. rewrite Hrest in *.
      rewrite (rstrip_space_cons " " _ eq_refl), IH.
      destruct words as [|w' words]; [simpl; apply append_empty_r|].
      destruct (join " " (w' :: words)) eqn:E.
      * by apply (join_empty _ Hwords) in E.
      * by rewrite <- E.
Qed.

Lemma strip_collapse (text : string) :
  strip (collapse text) = join " " (split text).
Proof.
  unfold strip, collapse.
  rewrite (proj2 (lstrip_collapse text)).
  apply rstrip_collapse, split_splits.
Qed.

Lemma filter_chars_forall (p : ascii → bool) (s : string) :
  forall_chars p (filter_chars p s) = true.
Proof.
  induction s as [|c s IH]; [done|]. simpl.
  destruct (p c) eqn:Hc; simpl; rewrite ?Hc; auto.
Qed.

Lemma filter_chars_id (p : ascii → bool) (s : string) :
  forall_chars p s = true → filter_chars p s = s.
Proof.
  induction s as [|c s IH]; [done|]. simpl.
  intros [-> Hs]%andb_true_iff. by rewrite IH.
Qed.

Lemma forall_chars_and (p q : ascii → bool) (s : string) :
  forall_chars p s = true → forall_chars q s = true →
  forall_chars (λ c, p c && q c) s = true.
Proof.
  induction s as [|c s IH]; [done|]. simpl.
  intros [-> Hp]%andb_true_iff [-> Hq]%andb_true_iff. by apply IH.
Qed.

Lemma forall_chars_impl (p q : ascii → bool) (s : string) :
  (∀ c, p c = true → q c = true) → forall_chars p s = true → forall_chars q s = true.
Proof.
  intros Hpq. induction s as [|c s IH]; [done|]. simpl.
  intros [Hc Hs]%andb_true_iff. by rewrite (Hpq c Hc), IH.
Qed.

Lemma forall_chars_join (p : ascii → bool) (words : list string) :
  p " "%char = true → Forall (λ w, forall_chars p w = true) words →
  forall_chars p (join " " words) = true.
Proof.
  intros Hsp. induction 1 as [|w rest Hw _ IH]; [done|].
  destruct rest as [|w' rest]; [done|].
  change (join " " (w :: w' :: rest)) with (w +:+ String " " (join " " (w' :: rest))).
  rewrite forall_chars_append.
  change (forall_chars p (String " " (join " " (w' :: rest))))
    with (p " "%char && forall_chars p (join " " (w' :: rest))).
  by rewrite Hw, Hsp, IH.
Qed.

(** The words of the cleaned text: non-empty strings of ASCII letters and
    digits. *)
Lemma clean_words (text : string) :
  Forall (λ w, word w ∧ forall_chars is_ascii_alnum w = true)
         (split (filter_chars kept text)).
Proof.
  apply Forall_and. split.
  - apply (splits_as_words (filter_chars kept text)), split_splits.
  - pose proof (splits_as_words _ _ (split_splits (filter_chars kept text))) as Hwords.
    pose proof (runs_from_chars char_isspace kept (filter_chars kept text) EmptyString
                  eq_refl (filter_chars_forall kept text)) as Hkept.
    fold (runs char_isspace (filter_chars kept text)) in Hkept.
    rewrite <- split_runs in Hkept.
    rewrite Forall_forall in Hwords, Hkept. apply Forall_forall. intros w Hw.
    destruct (Hwords w Hw) as [_ Hns]. specialize (Hkept w Hw). simpl in Hkept.
    eapply forall_chars_impl; [|exact (forall_chars_and _ _ _ Hkept Hns)].
    intros c. unfold kept. simpl. by destruct (is_ascii_alnum c), (char_isspace c).
Qed.

(** [clean_text] returns the whitespace-separated words of the text, each
    stripped of every character other than an ASCII letter or digit (words
    left empty disappear), joined by single spaces: the result holds only
    such letters, digits and single spaces, and neither starts nor ends
    with a space. *)
Theorem clean_text_words (text : string) :
  ∃ words,
    words = split (filter_chars (λ c, is_ascii_alnum c || char_isspace c) text) ∧
    clean_text text = join " " words ∧
    Forall (λ w, w ≠ EmptyString ∧ forall_chars is_ascii_alnum w = true) words ∧
    split (clean_text text) = words.
Proof.
  eexists. split; [reflexivity|].
  pose proof (clean_words text) as Hwords. unfold kept in Hwords.
  apply Forall_and in Hwords as [Hw Halnum].
  assert (clean_text text = join " " (split (filter_chars kept text))) as Hclean
    by apply strip_collapse.
  split; [exact Hclean|]. split.
  - apply Forall_and. split; [|done].
    eapply Forall_impl; [exact Hw|]. by intros w [? _].
  - rewrite Hclean. by apply split_join.
Qed.

(** Cleaning a cleaned text changes nothing. *)
Theorem clean_text_idempotent (text : string) :
  clean_text (clean_text text) = clean_text text.
Proof.
  assert (∀ t, clean_text t = join " " (split (filter_chars kept t))) as Hclean
    by (intros t; apply strip_collapse).
  pose proof (clean_words text) as [Hw Halnum]%Forall_and.
  rewrite (Hclean (clean_text text)), (Hclean text).
  rewrite filter_chars_id.
  - by rewrite split_join.
  - apply forall_chars_join; [done|].
    eapply Forall_impl; [exact Halnum|]. intros w. simpl.
    apply forall_chars_impl. intros c. unfold kept. by intros ->.
Qed.

(** The docstring example. *)
Example clean_text_doc :
  clean_text "Hello,   World! This is a test." = "Hello World This is a test".
Proof. vm_compute. reflexivity. Qed.

(** Punctuation inside a word glues its parts together, where the
    tokenizer would split them. *)
Example clean_text_glues :
  clean_text "re-use" = "reuse" ∧ special_tokenization "re-use" = ["re"; "use"].
Proof. split; vm_compute; reflexivity. Qed.
End CleanText.

(** ** Stop-word removal, applied again *)

Section StopWordsMore.
Import Str.

(** The result holds no stop word any more, its words are separated by
    single spaces, and removing the same stop words again changes
    nothing. *)
Theorem clean_stop_words_idempotent (text : string) (stopwords : gset string) :
  Forall (λ w, lower w ∉ stopwords) (split (clean_stop_words text stopwords)) ∧
  clean_stop_words (clean_stop_words text stopwords) stopwords
  = clean_stop_words text stopwords.
Proof.
  assert (split (clean_stop_words text stopwords)
          = filter (λ w, lower w ∉ stopwords) (split text)) as Hsplit.
  { unfold clean_stop_words. apply split_join.
    pose proof (splits_as_words _ _ (split_splits text)) as Hwords.
    rewrite Forall_forall in Hwords. apply Forall_forall.
    intros w [_ Hw]%list_elem_of_filter. auto. }
  split.
  - rewrite Hsplit. apply Forall_forall. by intros w [? _]%list_elem_of_filter.
  - unfold clean_stop_words at 1. rewrite Hsplit. unfold clean_stop_words.
    f_equal. apply filter_keeps_all.
    apply Forall_forall. by intros w [? _]%list_elem_of_filter.
Qed.

(** Without stop words the call only normalises the whitespace. *)
Theorem clean_stop_words_empty (text : string) :
  clean_stop_words text ∅ = join " " (split text) ∧
  split (clean_stop_words text ∅) = split text.
Proof.
  assert (clean_stop_words text ∅ = join " " (split text)) as E.
  { unfold clean_stop_words. f_equal. apply filter_keeps_all.
    apply Forall_forall. intros w _. set_solver. }
  split; [done|]. rewrite E. apply split_join.
  apply (splits_as_words text), split_splits.
Qed.
End StopWordsMore.
